(** * cuML t-SNE (Barnes-Hut), PCA fit and eigh: a shallow embedding

    The host-side code of [cpp/src/tsne/barnes_hut.h], the parameter checks
    of [cpp/src/pca/pca.h] and the post-processing of
    [cpp/src/tsvd/sparse_svd/eigh.h] are translated to Rocq functions.

    - C [float] is IEEE-754 binary32, written with the Standard Library's
      [SpecFloat] operations at precision 24 and maximal exponent 128
      (round to nearest, ties to even).
    - C [int] values are [Z].  The loop counter never exceeds [max_iter],
      so it does not wrap around; the products [n * 2] and [4 * nnodes] are
      taken in [Z], as for sizes whose buffers can be allocated.
    - Device buffers are lists.  The CUDA kernels of [bh_kernels.h] are not
      part of the sources at hand: they are fields of a [Platform] record
      and every theorem holds for all of them.
    - Console output, timers and CUDA error checks (which abort the whole
      call) are left out. *)

From Stdlib Require Import ZArith List Bool String Lia Sorted.
From Stdlib Require Import Floats.SpecFloat.
Import ListNotations.
Local Open Scope Z_scope.

(** ** binary32 arithmetic *)

Module Float32.

Definition prec : Z := 24.
Definition emax : Z := 128.

Definition float : Type := spec_float.

Definition fadd : float -> float -> float := SFadd prec emax.
Definition fsub : float -> float -> float := SFsub prec emax.
Definition fmul : float -> float -> float := SFmul prec emax.
Definition fdiv : float -> float -> float := SFdiv prec emax.
Definition fsqrt : float -> float := SFsqrt prec emax.
Definition fopp : float -> float := SFopp.

(** C comparisons: every comparison with a NaN is false. *)
Definition flt : float -> float -> bool := SFltb.
Definition fle : float -> float -> bool := SFleb.

(** The conversion [(float) i] of an integer. *)
Definition float_of_int (i : Z) : float := binary_normalize prec emax i 0 false.

(** All bits zero, as written by [cudaMemsetAsync (p, 0, ...)]. *)
Definition zero : float := S754_zero false.

(** The literals that occur in the sources. *)
Definition lit_1 : float := Eval vm_compute in float_of_int 1.
Definition lit_m1 : float := Eval vm_compute in fopp (float_of_int 1).
Definition lit_100 : float := Eval vm_compute in float_of_int 100.
(** [0.01f] is bit pattern 0x3C23D70A, that is 10737418 * 2^-30. *)
Definition lit_0_01 : float := S754_finite false 10737418 (-30).
(** [0.001f] is bit pattern 0x3A83126F, that is 8589935 * 2^-33. *)
Definition lit_0_001 : float := S754_finite false 8589935 (-33).
Definition lit_m0_001 : float := S754_finite true 8589935 (-33).


End Float32.
Import Float32.

(** ** Device-memory primitives

    Buffers are lists; a pointer into a buffer is the buffer and an offset. *)

Section Buffers.
Context {A : Type}.

(** Cells [off, off + len) of [buf] are set to [v]:
    [cudaMemsetAsync] with value 0 and [thrust::fill]. *)
Definition fill_range (off len : nat) (v : A) (buf : list A) : list A :=
  firstn off buf ++ map (fun _ => v) (firstn len (skipn off buf))
    ++ skipn (off + len) buf.

(** Modelled from the spec: [LinAlg::unaryOp (buf, buf, len, op)] is a
    primitive of MLCommon that the sources at hand only call, a
    "parallel-map": the first [len] cells are replaced by their image
    under [op]. *)
Definition unaryOp (op : A -> A) (len : nat) (buf : list A) : list A :=
  map op (firstn len buf) ++ skipn len buf.

(** Modelled from the spec: [copyAsync (dst + doff, src + soff, len)] is
    a primitive of MLCommon that the sources at hand only call, the
    "copying in" of an initialisation and the return of the final
    positions: [len] cells are read from [src] and stored in [dst]; [d]
    stands for a cell read out of range. *)
Definition copyAsync (d : A) (dst : list A) (doff : nat)
    (src : list A) (soff : nat) (len : nat) : list A :=
  firstn doff dst
    ++ map (fun i => nth (soff + i) src d) (seq 0 len)
    ++ skipn (doff + len) dst.

End Buffers.

(** Modelled from the spec: [LinAlg::scalarMultiply (buf, buf, scalar, len)]
    is a primitive of MLCommon that the sources at hand only call, the
    "global rescaling" of the weights: each of the first [len] cells is
    multiplied by [scalar]. *)
Definition scalarMultiply (scalar : float) (len : nat) (buf : list float) : list float :=
  unaryOp (fun x => fmul x scalar) len buf.

(** ** The state of a run of [Barnes_Hut] *)

(** The buffers of the quadtree (sizes in the order of lines 87-153). *)
Record Tree : Type := mkTree {
  limiter : Z;
  maxdepthd : Z;
  bottomd : Z;
  radiusd : float;           (* [radiusd_squared] is the same cell *)
  startl : list Z;
  countl : list Z;
  childl : list Z;
  massl : list float;
  sortl : list Z;
  maxxl : list float;
  maxyl : list float;
  minxl : list float;
  minyl : list float
}.

(** Device buffers and the three host variables that change in the loop.
    [attr_forces] is the caller's buffer [Y] (line 105), so both names are
    one field.  The source lets buffers whose live ranges are disjoint share
    storage; each logical buffer is a field of its own here. *)
Record Run : Type := mkRun {
  VAL : list float;
  Y : list float;
  YY : list float;
  rep_forces : list float;
  Z_norm : float;
  norm : list float;
  norm_add1 : list float;
  sums : list float;
  gains_bh : list float;
  old_forces : list float;
  tree : Tree;
  momentum : float;
  learning_rate : float;
  max_bounds : float
}.

Definition set_startl v (t : Tree) : Tree :=
  mkTree (limiter t) (maxdepthd t) (bottomd t) (radiusd t) v (countl t)
    (childl t) (massl t) (sortl t) (maxxl t) (maxyl t) (minxl t) (minyl t).
Definition set_childl v (t : Tree) : Tree :=
  mkTree (limiter t) (maxdepthd t) (bottomd t) (radiusd t) (startl t) (countl t)
    v (massl t) (sortl t) (maxxl t) (maxyl t) (minxl t) (minyl t).
Definition set_bottomd v (t : Tree) : Tree :=
  mkTree (limiter t) (maxdepthd t) v (radiusd t) (startl t) (countl t)
    (childl t) (massl t) (sortl t) (maxxl t) (maxyl t) (minxl t) (minyl t).
Definition set_massl v (t : Tree) : Tree :=
  mkTree (limiter t) (maxdepthd t) (bottomd t) (radiusd t) (startl t) (countl t)
    (childl t) v (sortl t) (maxxl t) (maxyl t) (minxl t) (minyl t).
Definition set_radiusd v (t : Tree) : Tree :=
  mkTree (limiter t) (maxdepthd t) (bottomd t) v (startl t) (countl t)
    (childl t) (massl t) (sortl t) (maxxl t) (maxyl t) (minxl t) (minyl t).

Definition set_VAL v (s : Run) : Run :=
  mkRun v (Y s) (YY s) (rep_forces s) (Z_norm s) (norm s) (norm_add1 s) (sums s)
    (gains_bh s) (old_forces s) (tree s) (momentum s) (learning_rate s) (max_bounds s).
Definition set_Y v (s : Run) : Run :=
  mkRun (VAL s) v (YY s) (rep_forces s) (Z_norm s) (norm s) (norm_add1 s) (sums s)
    (gains_bh s) (old_forces s) (tree s) (momentum s) (learning_rate s) (max_bounds s).
Definition set_YY v (s : Run) : Run :=
  mkRun (VAL s) (Y s) v (rep_forces s) (Z_norm s) (norm s) (norm_add1 s) (sums s)
    (gains_bh s) (old_forces s) (tree s) (momentum s) (learning_rate s) (max_bounds s).
Definition set_rep_forces v (s : Run) : Run :=
  mkRun (VAL s) (Y s) (YY s) v (Z_norm s) (norm s) (norm_add1 s) (sums s)
    (gains_bh s) (old_forces s) (tree s) (momentum s) (learning_rate s) (max_bounds s).
Definition set_Z_norm v (s : Run) : Run :=
  mkRun (VAL s) (Y s) (YY s) (rep_forces s) v (norm s) (norm_add1 s) (sums s)
    (gains_bh s) (old_forces s) (tree s) (momentum s) (learning_rate s) (max_bounds s).
Definition set_norm v (s : Run) : Run :=
  mkRun (VAL s) (Y s) (YY s) (rep_forces s) (Z_norm s) v (norm_add1 s) (sums s)
    (gains_bh s) (old_forces s) (tree s) (momentum s) (learning_rate s) (max_bounds s).
Definition set_norm_add1 v (s : Run) : Run :=
  mkRun (VAL s) (Y s) (YY s) (rep_forces s) (Z_norm s) (norm s) v (sums s)
    (gains_bh s) (old_forces s) (tree s) (momentum s) (learning_rate s) (max_bounds s).
Definition set_sums v (s : Run) : Run :=
  mkRun (VAL s) (Y s) (YY s) (rep_forces s) (Z_norm s) (norm s) (norm_add1 s) v
    (gains_bh s) (old_forces s) (tree s) (momentum s) (learning_rate s) (max_bounds s).
Definition set_gains_bh v (s : Run) : Run :=
  mkRun (VAL s) (Y s) (YY s) (rep_forces s) (Z_norm s) (norm s) (norm_add1 s) (sums s)
    v (old_forces s) (tree s) (momentum s) (learning_rate s) (max_bounds s).
Definition set_old_forces v (s : Run) : Run :=
  mkRun (VAL s) (Y s) (YY s) (rep_forces s) (Z_norm s) (norm s) (norm_add1 s) (sums s)
    (gains_bh s) v (tree s) (momentum s) (learning_rate s) (max_bounds s).
Definition set_tree v (s : Run) : Run :=
  mkRun (VAL s) (Y s) (YY s) (rep_forces s) (Z_norm s) (norm s) (norm_add1 s) (sums s)
    (gains_bh s) (old_forces s) v (momentum s) (learning_rate s) (max_bounds s).
Definition set_momentum v (s : Run) : Run :=
  mkRun (VAL s) (Y s) (YY s) (rep_forces s) (Z_norm s) (norm s) (norm_add1 s) (sums s)
    (gains_bh s) (old_forces s) (tree s) v (learning_rate s) (max_bounds s).
Definition set_max_bounds v (s : Run) : Run :=
  mkRun (VAL s) (Y s) (YY s) (rep_forces s) (Z_norm s) (norm s) (norm_add1 s) (sums s)
    (gains_bh s) (old_forces s) (tree s) (momentum s) (learning_rate s) v.

(** The arguments of [Barnes_Hut] after the COO matrix, [Y] and [n]
    (lines 53-61); the integers are C [int]s, [random_state] a [long long]. *)
Record Params : Type := mkParams {
  theta : float;
  epssq : float;
  early_exaggeration : float;
  exaggeration_iter : Z;
  min_gain : float;
  pre_learning_rate : float;
  post_learning_rate : float;
  max_iter : Z;
  min_grad_norm : float;
  pre_momentum : float;
  post_momentum : float;
  random_state : Z;
  verbose : bool;
  pca_intialization : bool;
  workspace_size : Z
}.


(** ** What the host code calls but the sources at hand do not contain *)

(** Modelled from the spec: the kernels of [bh_kernels.h], the device query
    and the random fill of [utils.h] and the device allocator are missing.
    Following the spec's design notes each phase is a pure transform stage
    that takes the arrays it is handed and produces new ones; a kernel is a
    function of the arguments at its call site, returning the buffers the
    spec lists as that phase's output.  [uniform_fill seed lo hi len] is the
    random fill "reproducible given a seed"; with a negative [random_state]
    the seed is taken from outside the program (see [random_vector]).
    [device_alloc_float] and [device_alloc_int] give the contents of a
    freshly acquired, not yet written buffer. *)
Record Platform : Type := mkPlatform {
  getMultiProcessorCount : Z;
  FACTOR1 : Z;
  device_alloc_float : nat -> list float;
  device_alloc_int : nat -> list Z;
  uniform_fill : Z -> float -> float -> nat -> list float;
  (* FOUR_NNODES NNODES n, tree, YY *)
  BoundingBoxKernel : Z -> Z -> Z -> Tree -> list float -> Tree * list float;
  (* FOUR_NNODES FOUR_N, childl *)
  ClearKernel1 : Z -> Z -> list Z -> list Z;
  (* NNODES n, tree, YY *)
  TreeBuildingKernel : Z -> Z -> Tree -> list float -> Tree * list float;
  (* NNODES, tree *)
  ClearKernel2 : Z -> Tree -> Tree;
  (* NNODES n, tree, YY *)
  SummarizationKernel : Z -> Z -> Tree -> list float -> Tree * list float;
  (* NNODES n, tree *)
  SortKernel : Z -> Z -> Tree -> Tree;
  (* theta epssq theta_squared NNODES FOUR_NNODES n, tree, YY, rep_forces, Z_norm *)
  RepulsionKernel : float -> float -> float -> Z -> Z -> Z ->
                    Tree -> list float -> list float -> float -> list float * float;
  (* NNODES n, YY, norm, norm_add1 *)
  get_norm : Z -> Z -> list float -> list float -> list float -> list float * list float;
  (* VAL COL ROW, NNODES n, YY, norm, norm_add1, attr_forces, NNZ *)
  attractive_kernel_bh : list float -> list Z -> list Z -> Z -> Z -> list float ->
                         list float -> list float -> list float -> Z -> list float;
  (* learning_rate momentum early_exaggeration, NNODES n, YY, attr_forces,
     rep_forces, gains_bh, old_forces, Z_norm, max_bounds, sums;
     result: YY, gains_bh, old_forces, sums *)
  IntegrationKernel : float -> float -> float -> Z -> Z -> list float -> list float ->
                      list float -> list float -> list float -> float -> float ->
                      list float ->
                      list float * list float * list float * list float;
  (* NNODES n, YY, sums *)
  mean_centre : Z -> Z -> list float -> list float -> list float
}.

(** Modelled from the spec: [random_vector] of [utils.h] is missing.  The
    fill is "reproducible given a seed", and a negative seed means a
    non-reproducible run: the generator is then seeded with [entropy], a
    value that differs from one run to the next. *)
Definition random_vector (P : Platform) (entropy : Z) (lo hi : float) (len : nat)
    (seed : Z) : list float :=
  uniform_fill P (if seed <? 0 then entropy else seed) lo hi len.

(** ** [Barnes_Hut], lines 63-82: sizes *)

(** [while ((nnodes & (32 - 1)) != 0) nnodes++;] *)
Fixpoint align_nnodes (fuel : nat) (nnodes : Z) : Z :=
  match fuel with
  | O => nnodes
  | S fuel' =>
      if negb (Z.land nnodes (32 - 1) =? 0) then align_nnodes fuel' (nnodes + 1)
      else nnodes
  end.

Definition compute_nnodes (blocks n : Z) : Z :=
  let nnodes := n * 2 in
  let nnodes := if nnodes <? 1024 * blocks then 1024 * blocks else nnodes in
  let nnodes := align_nnodes 32 nnodes in
  nnodes - 1.

(** A counted loop [for (int iter = 0; iter < max_iter; iter++) body]. *)
Fixpoint for_loop {St : Type} (fuel : nat) (iter max_iter : Z)
    (body : Z -> St -> St) (st : St) : option St :=
  match fuel with
  | O => None
  | S fuel' =>
      if iter <? max_iter then for_loop fuel' (iter + 1) max_iter body (body iter st)
      else Some st
  end.

(** The first [k] turns of such a loop: the body at 0, 1, ..., [k - 1]. *)
Fixpoint turns {St : Type} (body : Z -> St -> St) (k : nat) (st : St) : St :=
  match k with
  | O => st
  | S k' => body (Z.of_nat k') (turns body k' st)
  end.

(** ** [Barnes_Hut] *)

Section BarnesHut.

Variable P : Platform.
(** What a negative [random_state] seeds the generator with. *)
Variable entropy : Z.
Variables COL ROW : list Z.
Variables NNZ n : Z.
Variable prm : Params.

(** Lines 69-82. *)
Definition blocks : Z := getMultiProcessorCount P.
Definition NNODES : Z := compute_nnodes blocks n.
Definition FOUR_NNODES : Z := 4 * NNODES.
Definition FOUR_N : Z := 4 * n.
Definition theta_squared : float := fmul (theta prm) (theta prm).
Definition N_float : float := float_of_int n.
Definition div_N : float := fdiv lit_1 N_float.

(** Lines 87-201: allocation and initialisation.  [VAL0] and [Y0] are the
    caller's buffers on entry. *)
Definition initial_tree : Tree :=
  mkTree
    0                                                         (* limiter: memset, l. 89 *)
    1                                                         (* maxdepthd: fill, l. 93 *)
    (hd 0 (device_alloc_int P 1))                             (* bottomd *)
    zero                                                      (* radiusd: memset, l. 99 *)
    (device_alloc_int P (Z.to_nat (NNODES + 1)))              (* startl *)
    (device_alloc_int P (Z.to_nat (NNODES + 1)))              (* countl *)
    (device_alloc_int P (Z.to_nat ((NNODES + 1) * 4)))        (* childl *)
    (fill_range 0 (Z.to_nat (NNODES + 1)) lit_1
       (device_alloc_float P (Z.to_nat (NNODES + 1))))        (* massl: fill, l. 128 *)
    (device_alloc_int P (Z.to_nat (NNODES + 1)))              (* sortl *)
    (device_alloc_float P (Z.to_nat (blocks * FACTOR1 P)))
    (device_alloc_float P (Z.to_nat (blocks * FACTOR1 P)))
    (device_alloc_float P (Z.to_nat (blocks * FACTOR1 P)))
    (device_alloc_float P (Z.to_nat (blocks * FACTOR1 P))).

(** Lines 193-201. *)
Definition initial_YY (Y0 : list float) : list float :=
  let YY0 := device_alloc_float P (Z.to_nat ((NNODES + 1) * 2)) in
  if pca_intialization prm then
    let YY1 := copyAsync zero YY0 0 Y0 0 (Z.to_nat n) in
    copyAsync zero YY1 (Z.to_nat (NNODES + 1)) Y0 (Z.to_nat n) (Z.to_nat n)
  else
    random_vector P entropy lit_m0_001 lit_0_001 (Z.to_nat ((NNODES + 1) * 2))
      (random_state prm).

Definition initial_run (VAL0 Y0 : list float) : Run :=
  mkRun
    VAL0
    Y0                                                        (* attr_forces = Y, l. 105 *)
    (initial_YY Y0)
    (device_alloc_float P (Z.to_nat ((NNODES + 1) * 2)))      (* rep_forces *)
    (hd zero (device_alloc_float P 1))                        (* Z_norm *)
    (device_alloc_float P (Z.to_nat n))                       (* norm *)
    (device_alloc_float P (Z.to_nat n))                       (* norm_add1 *)
    (device_alloc_float P 2)                                  (* sums *)
    (fill_range 0 (Z.to_nat (n * 2)) lit_1
       (device_alloc_float P (Z.to_nat (n * 2))))             (* gains_bh, l. 180 *)
    (fill_range 0 (Z.to_nat (n * 2)) zero
       (device_alloc_float P (Z.to_nat (n * 2))))             (* old_forces, l. 184 *)
    initial_tree
    (pre_momentum prm)                                        (* l. 220 *)
    (pre_learning_rate prm)                                   (* l. 221 *)
    lit_100.                                                  (* max_bounds, l. 63 *)

(** Lines 228-232. *)
Definition exaggeration_switch (iter : Z) (st : Run) : Run :=
  if iter =? exaggeration_iter prm then
    let st := set_momentum (post_momentum prm) st in
    set_VAL (scalarMultiply (fdiv lit_1 (early_exaggeration prm)) (Z.to_nat NNZ) (VAL st)) st
  else st.

(** Lines 237-240. *)
Definition bounding_box (st : Run) : Run :=
  let t := set_startl (fill_range (Z.to_nat NNODES) 1 0 (startl (tree st))) (tree st) in
  let r := BoundingBoxKernel P FOUR_NNODES NNODES n t (YY st) in
  set_YY (snd r) (set_tree (fst r) st).

(** Line 248. *)
Definition clear1 (st : Run) : Run :=
  set_tree (set_childl (ClearKernel1 P FOUR_NNODES FOUR_N (childl (tree st))) (tree st)) st.

(** Lines 255-258. *)
Definition tree_building (st : Run) : Run :=
  let t := set_bottomd NNODES (tree st) in
  let r := TreeBuildingKernel P NNODES n t (YY st) in
  set_YY (snd r) (set_tree (fst r) st).

(** Lines 265-268. *)
Definition clear2 (st : Run) : Run :=
  let t := set_massl (fill_range (Z.to_nat NNODES) 1 lit_m1 (massl (tree st))) (tree st) in
  set_tree (ClearKernel2 P NNODES t) st.

(** Lines 275-276. *)
Definition summarization (st : Run) : Run :=
  let r := SummarizationKernel P NNODES n (tree st) (YY st) in
  set_YY (snd r) (set_tree (fst r) st).

(** Lines 283-284. *)
Definition sort (st : Run) : Run :=
  set_tree (SortKernel P NNODES n (tree st)) st.

(** Lines 293-302. *)
Definition repulsion (st : Run) : Run :=
  let t := set_radiusd (fmul (radiusd (tree st)) (radiusd (tree st))) (tree st) in
  let rep := fill_range 0 (Z.to_nat ((NNODES + 1) * 2)) zero (rep_forces st) in
  let r := RepulsionKernel P (theta prm) (epssq prm) theta_squared NNODES FOUR_NNODES n
             t (YY st) rep zero in
  set_Z_norm (snd r) (set_rep_forces (fst r) (set_tree t st)).

(** Lines 310-311: [Z_norm <- 1.0f / (Z_norm - N_float)]. *)
Definition normalization (st : Run) : Run :=
  set_Z_norm (fdiv lit_1 (fsub (Z_norm st) N_float)) st.

(** Line 316. *)
Definition norms (st : Run) : Run :=
  let r := get_norm P NNODES n (YY st) (norm st) (norm_add1 st) in
  set_norm_add1 (snd r) (set_norm (fst r) st).

(** Lines 322-326. *)
Definition attraction (st : Run) : Run :=
  let attr := fill_range 0 (Z.to_nat (n * 2)) zero (Y st) in
  set_Y (attractive_kernel_bh P (VAL st) COL ROW NNODES n (YY st) (norm st)
           (norm_add1 st) attr NNZ) st.

(** Lines 333-339. *)
Definition integration (st : Run) : Run :=
  let sm := fill_range 0 2 zero (sums st) in
  let r := IntegrationKernel P (learning_rate st) (momentum st) (early_exaggeration prm)
             NNODES n (YY st) (Y st) (rep_forces st) (gains_bh st) (old_forces st)
             (Z_norm st) (max_bounds st) sm in
  match r with
  | (yy, gains, old, sm') =>
      set_sums sm' (set_old_forces old (set_gains_bh gains (set_YY yy st)))
  end.

(** Lines 344-347. *)
Definition mean_centring (st : Run) : Run :=
  let sm := unaryOp (fun x => fmul x div_N) 2 (sums st) in
  set_YY (mean_centre P NNODES n (YY st) sm) (set_sums sm st).

(** Line 355: [max_bounds += 0.01f]. *)
Definition widen_bounds (st : Run) : Run :=
  set_max_bounds (fadd (max_bounds st) lit_0_01) st.

(** The loop body up to the end of the repulsion phase: [Z_norm] holds
    what [RepulsionKernel] has accumulated. *)
Definition after_repulsion (iter : Z) (st : Run) : Run :=
  repulsion (sort (summarization (clear2
    (tree_building (clear1 (bounding_box (exaggeration_switch iter st))))))).

(** The loop body up to the launch of [IntegrationKernel]: the state whose
    fields are that kernel's arguments. *)
Definition before_integration (iter : Z) (st : Run) : Run :=
  attraction (norms (normalization (after_repulsion iter st))).

(** The loop body, lines 224-356. *)
Definition iteration (iter : Z) (st : Run) : Run :=
  widen_bounds (mean_centring (integration (before_integration iter st))).

(** Lines 223-356.  The loop needs [max_iter] turns and one more test. *)
Definition gradient_updates (st : Run) : option Run :=
  for_loop (S (Z.to_nat (max_iter prm))) 0 (max_iter prm) iteration st.

(** Lines 359-361. *)
Definition copy_out (st : Run) : Run :=
  let Y1 := copyAsync zero (Y st) 0 (YY st) 0 (Z.to_nat n) in
  set_Y (copyAsync zero Y1 (Z.to_nat n) (YY st) (Z.to_nat (NNODES + 1)) (Z.to_nat n)) st.

(** The whole call; [None] would mean that the loop has not finished. *)
Definition Barnes_Hut (VAL0 Y0 : list float) : option Run :=
  match gradient_updates (initial_run VAL0 Y0) with
  | Some st => Some (copy_out st)
  | None => None
  end.


(** What the tree, force and integration phases have no access to: the
    weights and the host variables. *)
Definition host_view (st : Run) : list float * float * float * float :=
  (VAL st, momentum st, learning_rate st, max_bounds st).

(** Has the turn with index [exaggeration_iter] been run among the first
    [k] turns? *)
Definition horizon_passed (k : Z) : bool :=
  (0 <=? exaggeration_iter prm) && (exaggeration_iter prm <? k).

(** The weights after their rescaling (line 231). *)
Definition rescaled (VAL0 : list float) : list float :=
  scalarMultiply (fdiv lit_1 (early_exaggeration prm)) (Z.to_nat NNZ) VAL0.

(** The state after the first [k] turns of the loop. *)
Definition after_iterations (k : nat) (st : Run) : Run :=
  turns iteration k st.

End BarnesHut.

(** ** [pcaFit]: parameter checks, lines 82-90 of [pca.h] *)

Module PCA.

(** Modelled from the spec: the struct [paramsPCA] is declared outside
    the sources at hand; these are the fields that [pcaFit] reads, the two
    dimensions of the input and the "requested components". *)
Record paramsPCA : Type := mkParamsPCA {
  n_rows : Z;
  n_cols : Z;
  n_components : Z
}.

Definition set_n_components (v : Z) (prms : paramsPCA) : paramsPCA :=
  mkParamsPCA (n_rows prms) (n_cols prms) v.

(** A call either completes or is abandoned with a message. *)
Inductive outcome (A : Type) : Type :=
| Done (a : A)
| Aborted (msg : string).
Arguments Done {A} a.
Arguments Aborted {A} msg.

Definition bind {A B : Type} (c : outcome A) (k : A -> outcome B) : outcome B :=
  match c with
  | Done a => k a
  | Aborted msg => Aborted msg
  end.

(** Modelled from the spec: the macro [ASSERT] is defined outside the
    sources at hand; a failed check is a "descriptive, non-recoverable
    abort signal" carrying the message of the call. *)
Definition ASSERT (check : bool) (msg : string) : outcome unit :=
  if check then Done tt else Aborted msg.

Section Fit.

Variables Input Output : Type.
(** Lines 92-125: mean, covariance, eigen-decomposition, truncation and
    singular values, computed from the parameters as they are after
    line 90. *)
Variable fit_numerics : paramsPCA -> Input -> Output.

Definition pcaFit (input : Input) (prms : paramsPCA) : outcome Output :=
  bind (ASSERT (1 <? n_cols prms)
          "Parameter n_cols: number of columns cannot be less than two")
    (fun _ =>
  bind (ASSERT (1 <? n_rows prms)
          "Parameter n_rows: number of rows cannot be less than two")
    (fun _ =>
  bind (ASSERT (0 <? n_components prms)
          "Parameter n_components: number of components cannot be less than one")
    (fun _ =>
  let prms :=
    if n_cols prms <? n_components prms
    then set_n_components (n_cols prms) prms else prms in
  Done (fit_numerics prms input)))).

End Fit.

End PCA.

(** ** [eigh], lines 79-93 of [eigh.h] *)

Module Eigh.

Section Eigh.

(** The template parameter with the operations the code applies to it:
    the literal [0], the comparison [>] and [MLCommon::mySqrt]. *)
Variable math_t : Type.
Variable zero : math_t.
Variable gt : math_t -> math_t -> bool.
Variable mySqrt : math_t -> math_t.
(** The order in which arrays are said to ascend or descend. *)
Variable le : math_t -> math_t -> Prop.

(** A column-major matrix is the list of its columns; [W], a matrix of
    one row, is the list of its entries. *)
Definition matrix : Type := list (list math_t).

(** [cusolverDnsyevd] on a [p] x [p] matrix: the eigenvalues it leaves
    in [W] and the eigenvectors it leaves in [V].  Its workspace and
    [info] are left out. *)
Variable syevd : nat -> matrix -> list math_t * matrix.

(** Modelled from the spec: [Matrix::colReverse] is not in the sources
    at hand; by the comment at its call it reverses the order of the
    columns. *)
Definition colReverse {A : Type} (cols : list A) : list A := rev cols.

(** The lambda of line 91. *)
Definition root_or_zero (x : math_t) : math_t :=
  if gt x zero then mySqrt x else zero.

Definition eigh (V : matrix) (p k : nat) (singular_values : bool)
    : list math_t * matrix :=
  let r := syevd p V in
  let W := colReverse (fst r) in
  let V := colReverse (snd r) in
  let W := if singular_values then unaryOp root_or_zero k W else W in
  (W, V).

Definition ascending (l : list math_t) : Prop := StronglySorted le l.
Definition descending (l : list math_t) : Prop :=
  StronglySorted (fun a b => le b a) l.

End Eigh.

(** The instance at [float]. *)
Definition fle_prop (a b : float) : Prop := fle a b = true.

(** Eigenvalues of a diagonal matrix: insertion of each diagonal entry,
    with its unit vector, into an ascending list. *)
Fixpoint insert_pair (x : float * list float) (l : list (float * list float))
    : list (float * list float) :=
  match l with
  | [] => [x]
  | y :: l' => if fle (fst x) (fst y) then x :: l else y :: insert_pair x l'
  end.

Definition unit_vector (p j : nat) : list float :=
  map (fun i => if Nat.eqb i j then lit_1 else Float32.zero) (seq 0 p).

Definition syevd_diagonal (p : nat) (V : list (list float))
    : list float * list (list float) :=
  let pairs :=
    fold_right insert_pair []
      (map (fun j => (nth j (nth j V []) Float32.zero, unit_vector p j)) (seq 0 p)) in
  (map fst pairs, map snd pairs).

Definition lit_2 : float := Eval vm_compute in float_of_int 2.
Definition lit_3 : float := Eval vm_compute in float_of_int 3.
Definition lit_4 : float := Eval vm_compute in float_of_int 4.

(** The matrix with diagonal 4, 3. *)
Definition diag_4_3 : list (list float) :=
  [[lit_4; Float32.zero]; [Float32.zero; lit_3]].

Definition eigh_float : list (list float) -> nat -> nat -> bool ->
    list float * list (list float) :=
  eigh float Float32.zero (fun a b => flt b a) fsqrt syevd_diagonal.

End Eigh.

(** ** The growth bound [max_bounds] as a sequence of binary32 numbers *)

Module GrowthBound.

(** [max_bounds] after [k] turns of the loop (lines 63 and 355). *)
Definition growth_bound (k : nat) : float :=
  Nat.iter k (fun b => fadd b lit_0_01) lit_100.

(** [q] followed by the bits [bits], least significant bit first. *)
Fixpoint with_low (bits : list bool) (q : positive) : positive :=
  match bits with
  | [] => q
  | b :: bs => if b then xI (with_low bs q) else xO (with_low bs q)
  end.

(** Round and sticky bit after [bits] have been shifted out. *)
Fixpoint shift_out (bits : list bool) (r s : bool) : bool * bool :=
  match bits with
  | [] => (r, s)
  | b :: bs => shift_out bs b (r || s)
  end.

Definition round_low (bits : list bool) (q : positive) : positive :=
  let rs := shift_out bits false false in
  Z.to_pos (round_nearest_even (Zpos q)
              (loc_of_shr_record (Build_shr_record (Zpos q) (fst rs) (snd rs)))).

(** The [d] low bits of the mantissa of [0.01f]. *)
Definition low_bits (d : nat) : list bool :=
  map (fun i => Z.testbit 10737418 (Z.of_nat i)) (seq 0 d).

(** Exponent [e] of a number in [[2^(e+23), 2^(e+24))] and the number of
    units in the last place that adding [0.01f] moves it by. *)
Definition binades : list (Z * positive) :=
  [(-17, 1311%positive); (-16, 655%positive); (-15, 328%positive);
   (-14, 164%positive); (-13, 82%positive); (-12, 41%positive);
   (-11, 20%positive); (-10, 10%positive); (-9, 5%positive);
   (-8, 3%positive); (-7, 1%positive); (-6, 1%positive)].

(** A stretch of the sequence: from mantissa [seg_m0] at exponent [seg_e],
    [seg_len] additions each move the mantissa by [seg_D]; one more
    addition leads to the next stretch. *)
Record segment : Type := mkSegment {
  seg_e : Z;
  seg_D : positive;
  seg_m0 : positive;
  seg_len : Z
}.

Definition growth_table : list segment :=
  [ mkSegment (-17) 1311 13107200 2799;
    mkSegment (-16) 655 8389000 12806;
    mkSegment (-15) 328 8388793 25574;
    mkSegment (-14) 164 8388696 51149;
    mkSegment (-13) 82 8388648 102299;
    mkSegment (-12) 41 8388624 204599;
    mkSegment (-11) 20 8388612 419430;
    mkSegment (-10) 10 8388616 838859;
    mkSegment (-9) 5 8388608 1677721;
    mkSegment (-8) 3 8388609 2796201;
    mkSegment (-8) 3 16777215 0;
    mkSegment (-7) 1 8388609 8388605;
    mkSegment (-7) 1 16777215 0;
    mkSegment (-6) 1 8388608 8388606;
    mkSegment (-6) 1 16777215 0 ].

(** 262144 = 2^18: from here on adding [0.01f] rounds back. *)
Definition bound_limit : float := S754_finite false 8388608 (-5).

(** The number of turns after which [max_bounds] is [bound_limit]. *)
Definition saturation_iteration : Z := 22908663.

Definition seg_value (s : segment) (i : Z) : float :=
  S754_finite false (Z.to_pos (Zpos (seg_m0 s) + i * Zpos (seg_D s))) (seg_e s).

Fixpoint walk (t : list segment) (k : Z) : float :=
  match t with
  | [] => bound_limit
  | s :: t' => if k <=? seg_len s then seg_value s k else walk t' (k - seg_len s - 1)
  end.

Fixpoint table_length (t : list segment) : Z :=
  match t with
  | [] => 0
  | s :: t' => seg_len s + 1 + table_length t'
  end.

Definition segment_ok (s : segment) (next : float) : Prop :=
  0 <= seg_len s /\
  8388608 <= Zpos (seg_m0 s) /\
  Zpos (seg_m0 s) + seg_len s * Zpos (seg_D s) < 16777216 /\
  (0 < seg_len s ->
     In (seg_e s, seg_D s) binades /\
     Zpos (seg_m0 s) + seg_len s * Zpos (seg_D s) + 1 < 16777216) /\
  fadd (seg_value s (seg_len s)) lit_0_01 = next /\
  flt (seg_value s (seg_len s)) next = true.

Fixpoint table_ok (t : list segment) : Prop :=
  match t with
  | [] => True
  | s :: t' => segment_ok s (walk t' 0) /\ table_ok t'
  end.

End GrowthBound.

(** ** A small platform on which the host code can be run

    The tree kernels leave their buffers as they are, [ClearKernel1] empties
    every child slot, the repulsion kernel adds [2 n] to its accumulator and
    the integrator scales the positions by the momentum.  The random fill
    alternates between the two bounds, starting according to the seed. *)

Module Demo.

Definition platform : Platform :=
  mkPlatform
    1 3
    (fun len => repeat zero len)
    (fun len => repeat 0 len)
    (fun seed lo hi len =>
       map (fun i => if Z.even (seed + Z.of_nat i) then lo else hi) (seq 0 len))
    (fun _ _ _ t yy => (t, yy))
    (fun _ _ c => map (fun _ => -1) c)
    (fun _ _ t yy => (t, yy))
    (fun _ t => t)
    (fun _ _ t yy => (t, yy))
    (fun _ _ t => t)
    (fun _ _ _ _ _ n _ _ rep z => (rep, fadd z (float_of_int (2 * n))))
    (fun _ _ _ nm nm1 => (nm, nm1))
    (fun _ _ _ _ _ _ _ _ attr _ => attr)
    (fun _ mom _ _ _ yy _ _ gains old _ _ sm =>
       (map (fun y => fmul mom y) yy, gains, old, sm))
    (fun _ _ yy _ => yy).

Definition lit_12 : float := Eval vm_compute in float_of_int 12.
Definition lit_7 : float := Eval vm_compute in float_of_int 7.
Definition lit_200 : float := Eval vm_compute in float_of_int 200.
Definition lit_500 : float := Eval vm_compute in float_of_int 500.
Definition lit_0_5 : float := Eval vm_compute in fdiv (float_of_int 1) (float_of_int 2).
Definition lit_0_8 : float := Eval vm_compute in fdiv (float_of_int 4) (float_of_int 5).

(** The default arguments of [Barnes_Hut] with a budget of [iters] turns,
    the horizon at [horizon] and the seed [seed]. *)
Definition params (iters horizon seed : Z) : Params :=
  mkParams lit_0_5 (fdiv (float_of_int 1) (float_of_int 400)) lit_12 horizon
    (fdiv (float_of_int 1) (float_of_int 100)) lit_200 lit_500 iters
    (fdiv (float_of_int 1) (float_of_int 10000000)) lit_0_5 lit_0_8 seed
    false false 0.

(** Two points joined by one edge of weight 7 in each direction. *)
Definition COL : list Z := [1; 0].
Definition ROW : list Z := [0; 1].
Definition VAL : list float := [lit_7; lit_7].

Definition Y_in : list float := [zero; zero; zero; zero].

Definition run (iters horizon : Z) (Y0 : list float) : option Run :=
  Barnes_Hut platform 0 COL ROW 2 2 (params iters horizon 42) VAL Y0.

(** [max_bounds] after [j] turns of a run with a budget of [iters]. *)
Definition bound_after (iters : Z) (j : nat) : float :=
  max_bounds
    (after_iterations platform COL ROW 2 2 (params iters 250 42) j
       (initial_run platform 0 2 (params iters 250 42) VAL Y_in)).

End Demo.

(** ** The integer types of the C code *)

(** The conversion of a number to [int] (32 bits, two's complement) and
    to [size_t] (64 bits, unsigned); an operation on two [int]s, or on two
    [size_t]s, is the operation on the numbers followed by the
    conversion. *)
Definition int_wrap (x : Z) : Z := (x + 2 ^ 31) mod 2 ^ 32 - 2 ^ 31.
Definition size_t_wrap (x : Z) : Z := x mod 2 ^ 64.

(** Lines 71-74 with every operation taken in [int].  [compute_nnodes]
    above is the same computation on unbounded numbers: the two agree as
    long as no intermediate value leaves the range of [int]. *)
Fixpoint align_nnodes_int (fuel : nat) (nnodes : Z) : Z :=
  match fuel with
  | O => nnodes
  | S fuel' =>
      if negb (Z.land nnodes (32 - 1) =? 0)
      then align_nnodes_int fuel' (int_wrap (nnodes + 1))
      else nnodes
  end.

Definition compute_nnodes_int (blocks n : Z) : Z :=
  let nnodes := int_wrap (n * 2) in
  let nnodes :=
    if nnodes <? int_wrap (1024 * blocks) then int_wrap (1024 * blocks) else nnodes in
  let nnodes := align_nnodes_int 32 nnodes in
  int_wrap (nnodes - 1).

(** ** [Barnes_Hut], lines 106-175: buffers that share storage *)

(** [x * sizeof (float)] and [x * sizeof (int)] for an [int] [x]: the
    [int] is converted to [size_t] and multiplied by 4 there. *)
Definition times_sizeof (x : Z) : Z := size_t_wrap (size_t_wrap x * 4).

(** The tests of lines 135 and 160: do the four reduction arrays fit in
    [sortl], and do [norm], [norm_add1] and [sums] fit in [childl]?  The
    products of [int]s are taken in [int], the two sides are compared in
    [size_t]. *)
Definition reductions_fit_in_sortl (blocks factor1 nnodes : Z) : bool :=
  times_sizeof (int_wrap (int_wrap (4 * blocks) * factor1))
  <=? size_t_wrap (4 * size_t_wrap (int_wrap (nnodes + 1))).

Definition norms_fit_in_childl (nnodes n : Z) : bool :=
  times_sizeof (int_wrap (int_wrap (n + n) + 2))
  <=? times_sizeof (int_wrap (int_wrap (nnodes + 1) * 4)).

(** [workspace_size += bytes] for the [int] [workspace_size] and a
    [size_t] [bytes]: the sum is taken in [size_t] and converted back. *)
Definition add_bytes (workspace_size bytes : Z) : Z :=
  int_wrap (size_t_wrap (size_t_wrap workspace_size + bytes)).

(** [workspace_size] as it stands at line 190, from its value on entry:
    the bytes of the buffers that were not allocated (lines 106, 114, 141,
    165; the test of line 110 compares 4 with 4). *)
Definition workspace_size_saved (P : Platform) (n workspace_size : Z) : Z :=
  let nnodes := compute_nnodes_int (blocks P) n in
  let workspace_size := add_bytes workspace_size (times_sizeof (int_wrap (n * 2))) in
  let workspace_size :=
    add_bytes workspace_size (times_sizeof (int_wrap (int_wrap (nnodes + 1) * 2))) in
  let workspace_size :=
    if reductions_fit_in_sortl (blocks P) (FACTOR1 P) nnodes
    then add_bytes workspace_size
           (times_sizeof (int_wrap (int_wrap (4 * blocks P) * FACTOR1 P)))
    else workspace_size in
  let workspace_size :=
    if norms_fit_in_childl nnodes n
    then add_bytes workspace_size (times_sizeof (int_wrap (int_wrap (n + n) + 2)))
    else workspace_size in
  workspace_size.

(** The megabytes that line 190 prints: [workspace_size >> 20]. *)
Definition saved_megabytes (P : Platform) (n workspace_size : Z) : Z :=
  Z.shiftr (workspace_size_saved P n workspace_size) 20.

(** ** [Barnes_Hut], lines 71-186: the sizes as values of type [int] *)

(** The range of a 32-bit [int]. *)
Definition int_range (x : Z) : bool := (- 2 ^ 31 <=? x) && (x <? 2 ^ 31).

(** The values of type [int] that the sizes go through: [n * 2] (lines 71
    and 178), [1024 * blocks] (line 72), the value at which the loop of
    line 73 starts and the one at which it stops, [nnodes] (line 74),
    [4 * nnodes] and [4 * n] (lines 77-78), and the lengths
    [(NNODES + 1) * 2] and [(NNODES + 1) * 4] (lines 103, 124, 186). *)
Definition int_values (P : Platform) (n : Z) : list Z :=
  [ n * 2;
    1024 * blocks P;
    (if n * 2 <? 1024 * blocks P then 1024 * blocks P else n * 2);
    NNODES P n + 1;
    NNODES P n;
    4 * NNODES P n;
    4 * n;
    (NNODES P n + 1) * 2;
    (NNODES P n + 1) * 4 ].

(** ** Numbers that a binary32 value stands for *)

(** Is the binary32 number [x] the integer [z]? *)
Definition float_is_integer (x : float) (z : Z) : bool :=
  match x with
  | S754_zero _ => z =? 0
  | S754_finite s m e =>
      if 0 <=? e then z =? cond_Zopp s (Zpos m * 2 ^ e)
      else z * 2 ^ (- e) =? cond_Zopp s (Zpos m)
  | _ => false
  end.

(** A binary32 datum that is a number or an infinity, not a NaN: the
    mantissa and exponent of a finite number are in canonical form.  Such
    a datum has one bit pattern, so two of them that are equal here are
    equal bit for bit; the NaNs, which [spec_float] does not tell apart,
    are left out. *)
Definition well_formed (x : float) : Prop :=
  valid_binary prec emax x = true /\ x <> S754_nan.

(** ** [pcaTransform], [pcaInverseTransform], [pcaFitTransform] *)

Module PCATransforms.

Import PCA.

(** The message of an abandoned call. *)
Definition abort_message {A : Type} (o : outcome A) : option string :=
  match o with
  | Done _ => None
  | Aborted msg => Some msg
  end.

(** What [pcaFit] leaves in its output buffers (and in [input]). *)
Record FitResult (math_t : Type) : Type := mkFitResult {
  fit_input : list math_t;
  fit_components : list math_t;
  fit_explained_var : list math_t;
  fit_explained_var_ratio : list math_t;
  fit_singular_vals : list math_t;
  fit_mu : list math_t
}.
Arguments fit_input {math_t} f.
Arguments fit_components {math_t} f.
Arguments fit_explained_var {math_t} f.
Arguments fit_explained_var_ratio {math_t} f.
Arguments fit_singular_vals {math_t} f.
Arguments fit_mu {math_t} f.

Section Transforms.

(** The template parameter, its product, and the two scalars
    [math_t (sqrt (k))] and [math_t (1 / sqrt (k))] of the whitening. *)
Variable math_t : Type.
Variable mul : math_t -> math_t -> math_t.
Variable minus_one zero : math_t.
Variable sqrt_of : Z -> math_t.
Variable inv_sqrt_of : Z -> math_t.

(** The routines of MLCommon, cuBLAS and [tsvd.h] that the three functions
    call: each maps the buffers it reads to the buffer it writes. *)
(* data, vector, n_rows, n_components *)
Variable matrixVectorBinaryMultSkipZero :
  list math_t -> list math_t -> Z -> Z -> list math_t.
Variable matrixVectorBinaryDivSkipZero :
  list math_t -> list math_t -> Z -> Z -> list math_t.
(* m, n, alpha, A, x, beta: the vector y *)
Variable cublasgemv : Z -> Z -> math_t -> list math_t -> list math_t -> math_t -> list math_t.
(* input, components, prms: trans_input *)
Variable tsvdTransform : list math_t -> list math_t -> paramsPCA -> list math_t.
(* trans_input, components, prms: input *)
Variable tsvdInverseTransform : list math_t -> list math_t -> paramsPCA -> list math_t.
(* data, mu, D, N *)
Variable meanAdd : list math_t -> list math_t -> Z -> Z -> list math_t.
(* trans_input, n_rows, n_components, components, n_cols: trans_input, components *)
Variable signFlip :
  list math_t -> Z -> Z -> list math_t -> Z -> list math_t * list math_t.
(** Lines 92-125 of [pcaFit]. *)
Variable fit_numerics : paramsPCA -> list math_t -> FitResult math_t.

Definition scalarMultiply_t (scalar : math_t) (len : nat) (buf : list math_t)
    : list math_t :=
  unaryOp (fun x => mul x scalar) len buf.

(** The three checks that open [pcaTransform] and [pcaInverseTransform]. *)
Definition check_dimensions (prms : paramsPCA) : outcome unit :=
  bind (ASSERT (1 <? n_cols prms)
          "Parameter n_cols: number of columns cannot be less than two")
    (fun _ =>
  bind (ASSERT (1 <? n_rows prms)
          "Parameter n_rows: number of rows cannot be less than two")
    (fun _ =>
  ASSERT (0 <? n_components prms)
    "Parameter n_components: number of components cannot be less than one")).

(** Lines 244-284 of [pcaTransform], after the checks; [whiten] is the
    field [prms.whiten].  The result is [components] as the call leaves it
    and [trans_input]. *)
Definition transform_numerics (whiten : bool)
    (input components singular_vals mu : list math_t) (prms : paramsPCA)
    : list math_t * list math_t :=
  let len := Z.to_nat (n_rows prms * n_components prms) in
  let components :=
    if whiten then
      let components :=
        scalarMultiply_t (sqrt_of (n_rows prms - 1)) len components in
      matrixVectorBinaryDivSkipZero components singular_vals
        (n_rows prms) (n_components prms)
    else components in
  let VT_mu :=
    cublasgemv (n_components prms) (n_cols prms) minus_one components mu zero in
  let trans_input := tsvdTransform input components prms in
  let trans_input := meanAdd trans_input VT_mu (n_components prms) (n_rows prms) in
  let components :=
    if whiten then
      let components :=
        matrixVectorBinaryMultSkipZero components singular_vals
          (n_rows prms) (n_components prms) in
      scalarMultiply_t (inv_sqrt_of (n_rows prms - 1)) len components
    else components in
  (components, trans_input).

Definition pcaTransform (whiten : bool)
    (input components singular_vals mu : list math_t) (prms : paramsPCA)
    : outcome (list math_t * list math_t) :=
  bind (check_dimensions prms)
    (fun _ => Done (transform_numerics whiten input components singular_vals mu prms)).

(** Lines 191-212 of [pcaInverseTransform], after the checks.  The result
    is [components] as the call leaves it and [input]. *)
Definition inverse_transform_numerics (whiten : bool)
    (trans_input components singular_vals mu : list math_t) (prms : paramsPCA)
    : list math_t * list math_t :=
  let len := Z.to_nat (n_rows prms * n_components prms) in
  let components :=
    if whiten then
      let components :=
        scalarMultiply_t (inv_sqrt_of (n_rows prms - 1)) len components in
      matrixVectorBinaryMultSkipZero components singular_vals
        (n_rows prms) (n_components prms)
    else components in
  let input := tsvdInverseTransform trans_input components prms in
  let input := meanAdd input mu (n_cols prms) (n_rows prms) in
  let components :=
    if whiten then
      let components :=
        matrixVectorBinaryDivSkipZero components singular_vals
          (n_rows prms) (n_components prms) in
      scalarMultiply_t (sqrt_of (n_rows prms - 1)) len components
    else components in
  (components, input).

Definition pcaInverseTransform (whiten : bool)
    (trans_input components singular_vals mu : list math_t) (prms : paramsPCA)
    : outcome (list math_t * list math_t) :=
  bind (check_dimensions prms)
    (fun _ =>
       Done (inverse_transform_numerics whiten trans_input components singular_vals mu prms)).

(** Lines 142-155.  [prms] is passed by value to [pcaFit], so what
    [pcaFit] does to its copy is not seen here.  The result is what
    [pcaFit] has written, then [trans_input] and [components] as [signFlip]
    leaves them. *)
Definition pcaFitTransform (whiten : bool) (input : list math_t) (prms : paramsPCA)
    : outcome (FitResult math_t * list math_t * list math_t) :=
  bind (pcaFit (list math_t) (FitResult math_t) fit_numerics input prms)
    (fun fit =>
  bind (pcaTransform whiten (fit_input fit) (fit_components fit)
          (fit_singular_vals fit) (fit_mu fit) prms)
    (fun r =>
  let flipped :=
    signFlip (snd r) (n_rows prms) (n_components prms) (fst r) (n_cols prms) in
  Done (fit, fst flipped, snd flipped))).

End Transforms.

End PCATransforms.

(** A toy instance over [Z]: the fit writes as many components as its
    parameters ask for, the projection writes [n_rows * n_components]
    cells, and the other routines leave their buffers as they are. *)
Module PCADemo.

Import PCA PCATransforms.

Definition fit_numerics (prms : paramsPCA) (input : list Z) : FitResult Z :=
  mkFitResult Z input
    (repeat 1 (Z.to_nat (n_cols prms * n_components prms)))
    (repeat 1 (Z.to_nat (n_components prms)))
    (repeat 1 (Z.to_nat (n_components prms)))
    (repeat 1 (Z.to_nat (n_components prms)))
    (repeat 0 (Z.to_nat (n_cols prms))).

Definition tsvdTransform (input components : list Z) (prms : paramsPCA) : list Z :=
  repeat 0 (Z.to_nat (n_rows prms * n_components prms)).

Definition pcaFitTransform : bool -> list Z -> paramsPCA ->
    outcome (FitResult Z * list Z * list Z) :=
  PCATransforms.pcaFitTransform Z Z.mul (-1) 0 Z.sqrt (fun _ => 1)
    (fun data _ _ _ => data) (fun data _ _ _ => data)
    (fun _ _ _ _ _ _ => []) tsvdTransform
    (fun data _ _ _ => data) (fun t _ _ c _ => (t, c)) fit_numerics.

End PCADemo.

(** What a weight becomes when it is multiplied by an infinite scalar. *)
Definition overflowed (w : float) : float :=
  match w with
  | S754_finite s _ _ => S754_infinity s
  | S754_infinity s => S754_infinity s
  | _ => S754_nan
  end.

(** ** More runs on the small platform *)

Module Scenario.

(** The arguments of [Demo.params] with the exaggeration factor and the
    initialisation mode of one's choice. *)
Definition params (exaggeration : float) (pca : bool) (iters horizon seed : Z) : Params :=
  mkParams Demo.lit_0_5 (fdiv (float_of_int 1) (float_of_int 400)) exaggeration horizon
    (fdiv (float_of_int 1) (float_of_int 100)) Demo.lit_200 Demo.lit_500 iters
    (fdiv (float_of_int 1) (float_of_int 10000000)) Demo.lit_0_5 Demo.lit_0_8 seed
    false pca 0.

Definition run (exaggeration : float) (pca : bool) (iters horizon : Z)
    (VAL0 Y0 : list float) : option Run :=
  Barnes_Hut Demo.platform 0 Demo.COL Demo.ROW 2 2
    (params exaggeration pca iters horizon 42) VAL0 Y0.

(** [Demo.platform] with another repulsion kernel: for [n] points it adds
    [sum_of n] to its accumulator.  With [sum_of n = n] only the self-term
    1 of each point is accumulated, as when the points lie far apart. *)
Definition platform_with_sum (sum_of : Z -> float) : Platform :=
  mkPlatform
    (getMultiProcessorCount Demo.platform) (FACTOR1 Demo.platform)
    (device_alloc_float Demo.platform) (device_alloc_int Demo.platform)
    (uniform_fill Demo.platform)
    (BoundingBoxKernel Demo.platform) (ClearKernel1 Demo.platform)
    (TreeBuildingKernel Demo.platform) (ClearKernel2 Demo.platform)
    (SummarizationKernel Demo.platform) (SortKernel Demo.platform)
    (fun _ _ _ _ _ n _ _ rep z => (rep, fadd z (sum_of n)))
    (get_norm Demo.platform) (attractive_kernel_bh Demo.platform)
    (IntegrationKernel Demo.platform) (mean_centre Demo.platform).

End Scenario.

(** * Properties *)

(** ** Literals and sizes *)

(** [0.01f] and [0.001f] are the binary32 numbers nearest to 1/100 and
    1/1000. *)
Example lit_0_01_nearest : fdiv (float_of_int 1) (float_of_int 100) = lit_0_01.
Proof. vm_compute. reflexivity. Qed.

Example lit_0_001_nearest : fdiv (float_of_int 1) (float_of_int 1000) = lit_0_001.
Proof. vm_compute. reflexivity. Qed.

Example compute_nnodes_two_points : compute_nnodes 1 2 = 1023.
Proof. reflexivity. Qed.

Example compute_nnodes_many_points : compute_nnodes 1 1000 = 2015.
Proof. reflexivity. Qed.

Example copyAsync_second_half :
  copyAsync 0 [10; 11; 12; 13] 2 [1; 2; 3; 4; 5] 3 2 = [10; 11; 4; 5].
Proof. reflexivity. Qed.

(** The loop that aligns [nnodes] stops within 31 steps at a multiple of 32. *)
Lemma align_nnodes_aligned (fuel : nat) (nnodes : Z) :
  nnodes mod 32 = 0 \/ 32 - nnodes mod 32 <= Z.of_nat fuel ->
  Z.land (align_nnodes fuel nnodes) (32 - 1) = 0.
Proof.
  assert (Hland : forall x, Z.land x (32 - 1) = x mod 32)
    by (intros x; apply (Z.land_ones x 5); lia).
  revert nnodes. induction fuel as [|fuel IH]; intros nnodes H.
  - cbn [align_nnodes]. rewrite Hland.
    pose proof (Z.mod_pos_bound nnodes 32). lia.
  - cbn [align_nnodes].
    destruct (Z.eqb_spec (Z.land nnodes (32 - 1)) 0) as [E|E]; cbn [negb].
    + exact E.
    + apply IH. rewrite Hland in E.
      pose proof (Z.mod_pos_bound nnodes 32).
      pose proof (Z.mod_pos_bound (nnodes + 1) 32).
      assert (Hstep : (nnodes + 1) mod 32 = (nnodes mod 32 + 1) mod 32)
        by (rewrite Z.add_mod_idemp_l by lia; reflexivity).
      destruct (Z.eq_dec (nnodes mod 32) 31) as [E31|E31].
      * left. rewrite Hstep, E31. reflexivity.
      * right. rewrite Hstep, Z.mod_small by lia. lia.
Qed.

Lemma compute_nnodes_aligned (blocks n : Z) :
  (compute_nnodes blocks n + 1) mod 32 = 0.
Proof.
  unfold compute_nnodes.
  set (m := if n * 2 <? 1024 * blocks then 1024 * blocks else n * 2).
  replace (align_nnodes 32 m - 1 + 1) with (align_nnodes 32 m) by lia.
  change (align_nnodes 32 m mod 32) with (align_nnodes 32 m mod 2 ^ 5).
  rewrite <- (Z.land_ones (align_nnodes 32 m) 5) by lia.
  apply align_nnodes_aligned.
  pose proof (Z.mod_pos_bound m 32). right. change (Z.of_nat 32) with 32. lia.
Qed.

(** ** Counted loops *)

Lemma for_loop_turns (St : Type) (body : Z -> St -> St) (max_iter : Z) (st : St) :
  forall (fuel k : nat),
    (k <= Z.to_nat max_iter)%nat ->
    (Z.to_nat max_iter - k < fuel)%nat ->
    for_loop fuel (Z.of_nat k) max_iter body (turns body k st)
    = Some (turns body (Z.to_nat max_iter) st).
Proof.
  induction fuel as [|fuel IH]; intros k Hk Hfuel; [lia|].
  cbn [for_loop].
  destruct (Z.ltb_spec (Z.of_nat k) max_iter) as [Hlt|Hge].
  - replace (Z.of_nat k + 1) with (Z.of_nat (S k)) by lia.
    change (body (Z.of_nat k) (turns body k st)) with (turns body (S k) st).
    apply IH; lia.
  - replace (Z.to_nat max_iter) with k by lia. reflexivity.
Qed.

(** The loop always finishes, after [max_iter] turns (none when the budget
    is not positive). *)
Lemma for_loop_total (St : Type) (body : Z -> St -> St) (max_iter : Z) (st : St) :
  for_loop (S (Z.to_nat max_iter)) 0 max_iter body st
  = Some (turns body (Z.to_nat max_iter) st).
Proof.
  apply (for_loop_turns St body max_iter st (S (Z.to_nat max_iter)) 0); lia.
Qed.

(** ** The host variables and [VAL] along the loop *)

Section BarnesHutFacts.

Variable P : Platform.
Variable entropy : Z.
Variables COL ROW : list Z.
Variables NNZ n : Z.
Variable prm : Params.

Local Abbreviation iteration_ := (iteration P COL ROW NNZ n prm).
Local Abbreviation before_integration_ := (before_integration P COL ROW NNZ n prm).
Local Abbreviation after_repulsion_ := (after_repulsion P NNZ n prm).
Local Abbreviation after_iterations_ := (after_iterations P COL ROW NNZ n prm).
Local Abbreviation initial_run_ := (initial_run P entropy n prm).
Local Abbreviation rescaled_ := (rescaled NNZ prm).
Local Abbreviation horizon_passed := (horizon_passed prm).

(** Each phase after the switch leaves the weights and the host
    variables alone; the last one only widens the bound. *)
Lemma host_view_bounding_box st : host_view (bounding_box P n st) = host_view st.
Proof. reflexivity. Qed.
Lemma host_view_clear1 st : host_view (clear1 P n st) = host_view st.
Proof. reflexivity. Qed.
Lemma host_view_tree_building st : host_view (tree_building P n st) = host_view st.
Proof. reflexivity. Qed.
Lemma host_view_clear2 st : host_view (clear2 P n st) = host_view st.
Proof. reflexivity. Qed.
Lemma host_view_summarization st : host_view (summarization P n st) = host_view st.
Proof. reflexivity. Qed.
Lemma host_view_sort st : host_view (sort P n st) = host_view st.
Proof. reflexivity. Qed.
Lemma host_view_repulsion st : host_view (repulsion P n prm st) = host_view st.
Proof. reflexivity. Qed.
Lemma host_view_normalization st : host_view (normalization n st) = host_view st.
Proof. reflexivity. Qed.
Lemma host_view_norms st : host_view (norms P n st) = host_view st.
Proof. reflexivity. Qed.
Lemma host_view_attraction st :
  host_view (attraction P COL ROW NNZ n st) = host_view st.
Proof. reflexivity. Qed.
Lemma host_view_integration st : host_view (integration P n prm st) = host_view st.
Proof.
  unfold integration.
  destruct (IntegrationKernel P _ _ _ _ _ _ _ _ _ _ _ _ _) as [[[yy g] o] sm].
  reflexivity.
Qed.
Lemma host_view_mean_centring st : host_view (mean_centring P n st) = host_view st.
Proof. reflexivity. Qed.

Lemma host_view_exaggeration_switch iter st :
  host_view (exaggeration_switch NNZ prm iter st)
  = if iter =? exaggeration_iter prm
    then (rescaled_ (VAL st), post_momentum prm, learning_rate st, max_bounds st)
    else host_view st.
Proof.
  unfold exaggeration_switch. destruct (iter =? exaggeration_iter prm); reflexivity.
Qed.

Lemma host_view_before_integration iter st :
  host_view (before_integration_ iter st)
  = host_view (exaggeration_switch NNZ prm iter st).
Proof.
  unfold before_integration, after_repulsion.
  rewrite host_view_attraction, host_view_norms, host_view_normalization,
    host_view_repulsion, host_view_sort, host_view_summarization, host_view_clear2,
    host_view_tree_building, host_view_clear1, host_view_bounding_box.
  reflexivity.
Qed.

Lemma host_view_iteration iter st :
  host_view (iteration_ iter st)
  = let '(val, mom, lr, mb) := host_view (exaggeration_switch NNZ prm iter st) in
    (val, mom, lr, fadd mb lit_0_01).
Proof.
  unfold iteration.
  assert (H : forall s, host_view (widen_bounds s)
              = let '(val, mom, lr, mb) := host_view s in (val, mom, lr, fadd mb lit_0_01))
    by reflexivity.
  rewrite H, host_view_mean_centring, host_view_integration,
    host_view_before_integration.
  reflexivity.
Qed.

Ltac from_host_view H :=
  rewrite host_view_exaggeration_switch in H; unfold host_view in H;
  match type of H with
  | context [if ?b then _ else _] => destruct b
  end;
  injection H; intros; congruence.

Lemma learning_rate_before_integration iter st :
  learning_rate (before_integration_ iter st) = learning_rate st.
Proof. pose proof (host_view_before_integration iter st) as H. from_host_view H. Qed.

Lemma learning_rate_iteration iter st :
  learning_rate (iteration_ iter st) = learning_rate st.
Proof. pose proof (host_view_iteration iter st) as H. from_host_view H. Qed.

Lemma momentum_before_integration iter st :
  momentum (before_integration_ iter st)
  = if iter =? exaggeration_iter prm then post_momentum prm else momentum st.
Proof. pose proof (host_view_before_integration iter st) as H. from_host_view H. Qed.

Lemma momentum_iteration iter st :
  momentum (iteration_ iter st)
  = if iter =? exaggeration_iter prm then post_momentum prm else momentum st.
Proof. pose proof (host_view_iteration iter st) as H. from_host_view H. Qed.


Lemma VAL_iteration iter st :
  VAL (iteration_ iter st)
  = if iter =? exaggeration_iter prm then rescaled_ (VAL st) else VAL st.
Proof. pose proof (host_view_iteration iter st) as H. from_host_view H. Qed.

Lemma max_bounds_iteration iter st :
  max_bounds (iteration_ iter st) = fadd (max_bounds st) lit_0_01.
Proof. pose proof (host_view_iteration iter st) as H. from_host_view H. Qed.

Lemma Z_norm_before_integration iter st :
  Z_norm (before_integration_ iter st)
  = fdiv lit_1 (fsub (Z_norm (after_repulsion_ iter st)) (float_of_int n)).
Proof. reflexivity. Qed.

Lemma after_iterations_S k st :
  after_iterations_ (S k) st = iteration_ (Z.of_nat k) (after_iterations_ k st).
Proof. reflexivity. Qed.

Lemma learning_rate_after_iterations k st :
  learning_rate (after_iterations_ k st) = learning_rate st.
Proof.
  induction k as [|k IH]; [reflexivity|].
  rewrite after_iterations_S, learning_rate_iteration. exact IH.
Qed.

Lemma horizon_passed_succ (k : nat) :
  horizon_passed (Z.of_nat (S k))
  = (Z.of_nat k =? exaggeration_iter prm) || horizon_passed (Z.of_nat k).
Proof.
  unfold horizon_passed.
  destruct (Z.eqb_spec (Z.of_nat k) (exaggeration_iter prm));
    destruct (Z.leb_spec 0 (exaggeration_iter prm));
    destruct (Z.ltb_spec (exaggeration_iter prm) (Z.of_nat (S k)));
    destruct (Z.ltb_spec (exaggeration_iter prm) (Z.of_nat k));
    cbn; try reflexivity; lia.
Qed.

Lemma momentum_after_iterations k st :
  momentum (after_iterations_ k st)
  = if horizon_passed (Z.of_nat k) then post_momentum prm else momentum st.
Proof.
  induction k as [|k IH].
  - unfold horizon_passed.
    destruct (Z.leb_spec 0 (exaggeration_iter prm));
      destruct (Z.ltb_spec (exaggeration_iter prm) (Z.of_nat 0));
      cbn; try reflexivity; lia.
  - rewrite after_iterations_S, momentum_iteration, IH, horizon_passed_succ.
    destruct (Z.of_nat k =? exaggeration_iter prm); [reflexivity|].
    destruct (horizon_passed (Z.of_nat k)); reflexivity.
Qed.

Lemma VAL_after_iterations k st :
  VAL (after_iterations_ k st)
  = if horizon_passed (Z.of_nat k) then rescaled_ (VAL st) else VAL st.
Proof.
  induction k as [|k IH].
  - unfold horizon_passed.
    destruct (Z.leb_spec 0 (exaggeration_iter prm));
      destruct (Z.ltb_spec (exaggeration_iter prm) (Z.of_nat 0));
      cbn; try reflexivity; lia.
  - rewrite after_iterations_S, VAL_iteration, IH, horizon_passed_succ.
    destruct (Z.eqb_spec (Z.of_nat k) (exaggeration_iter prm)) as [E|E].
    + replace (horizon_passed (Z.of_nat k)) with false; [reflexivity|].
      unfold horizon_passed. rewrite <- E.
      rewrite Z.ltb_irrefl, andb_false_r. reflexivity.
    + destruct (horizon_passed (Z.of_nat k)); reflexivity.
Qed.

Lemma max_bounds_after_iterations k st :
  max_bounds (after_iterations_ k st)
  = Nat.iter k (fun b => fadd b lit_0_01) (max_bounds st).
Proof.
  induction k as [|k IH]; [reflexivity|].
  rewrite after_iterations_S, max_bounds_iteration, IH. reflexivity.
Qed.

Lemma gradient_updates_total st :
  gradient_updates P COL ROW NNZ n prm st
  = Some (after_iterations_ (Z.to_nat (max_iter prm)) st).
Proof. apply for_loop_total. Qed.

Lemma Barnes_Hut_total VAL0 Y0 :
  Barnes_Hut P entropy COL ROW NNZ n prm VAL0 Y0
  = Some (copy_out P n (after_iterations_ (Z.to_nat (max_iter prm)) (initial_run_ VAL0 Y0))).
Proof. unfold Barnes_Hut. rewrite gradient_updates_total. reflexivity. Qed.

End BarnesHutFacts.

(** ** The schedule of the exaggeration phase and the iteration budget *)

Section BarnesHutSchedule.

Variable P : Platform.
Variable entropy : Z.
Variables COL ROW : list Z.
Variables NNZ n : Z.
Variable prm : Params.

Local Abbreviation iteration_ := (iteration P COL ROW NNZ n prm).
Local Abbreviation before_integration_ := (before_integration P COL ROW NNZ n prm).
Local Abbreviation after_repulsion_ := (after_repulsion P NNZ n prm).
Local Abbreviation after_iterations_ := (after_iterations P COL ROW NNZ n prm).
Local Abbreviation initial_run_ := (initial_run P entropy n prm).
Local Abbreviation rescaled_ := (rescaled NNZ prm).
Local Abbreviation horizon_passed_ := (horizon_passed prm).


Lemma horizon_passed_next (k : nat) :
  (if Z.of_nat k =? exaggeration_iter prm then true else horizon_passed_ (Z.of_nat k))
  = horizon_passed_ (Z.of_nat k + 1).
Proof.
  unfold horizon_passed.
  destruct (Z.eqb_spec (Z.of_nat k) (exaggeration_iter prm));
    destruct (Z.leb_spec 0 (exaggeration_iter prm));
    destruct (Z.ltb_spec (exaggeration_iter prm) (Z.of_nat k + 1));
    destruct (Z.ltb_spec (exaggeration_iter prm) (Z.of_nat k));
    cbn; try reflexivity; lia.
Qed.




(** C1 (what the code does): in every turn [k] of the loop the integrator
    is launched with the learning rate [pre_learning_rate], whatever the
    horizon and [post_learning_rate] are; only the momentum is switched,
    to [post_momentum] from the turn with index [exaggeration_iter] on. *)
Theorem learning_rate_never_leaves_pre_phase :
  forall (VAL0 Y0 : list float) (k : nat),
    let st := before_integration_ (Z.of_nat k)
                (after_iterations_ k (initial_run_ VAL0 Y0)) in
    learning_rate st = pre_learning_rate prm
    /\ momentum st = if horizon_passed_ (Z.of_nat k + 1)
                     then post_momentum prm else pre_momentum prm.
Proof.
  intros VAL0 Y0 k st. subst st. split.
  - rewrite learning_rate_before_integration, learning_rate_after_iterations.
    reflexivity.
  - rewrite momentum_before_integration, momentum_after_iterations.
    rewrite <- horizon_passed_next.
    destruct (Z.of_nat k =? exaggeration_iter prm); [reflexivity|].
    destruct (horizon_passed_ (Z.of_nat k)); reflexivity.
Qed.



End BarnesHutSchedule.

(** ** Adding [0.01f] in binary32

    Between 100 and 262144 the sum [b + 0.01f] is [b] moved up by a number
    of units in the last place that depends on the exponent of [b] only;
    at 262144 the sum rounds back to 262144. *)

Import GrowthBound.

Lemma digits2_pos_bounds : forall (q : positive) (n : nat),
  2 ^ Z.of_nat n <= Zpos q < 2 ^ Z.of_nat (S n) -> digits2_pos q = Pos.of_succ_nat n.
Proof.
  induction q as [q IH | q IH |]; intros n Hq.
  - destruct n as [|n].
    + change (2 ^ Z.of_nat 1) with 2 in Hq. lia.
    + rewrite !Nat2Z.inj_succ, !Z.pow_succ_r in Hq by lia.
      simpl. rewrite (IH n); [reflexivity|].
      rewrite Nat2Z.inj_succ, Z.pow_succ_r by lia. lia.
  - destruct n as [|n].
    + change (2 ^ Z.of_nat 1) with 2 in Hq. change (2 ^ Z.of_nat 0) with 1 in Hq. lia.
    + rewrite !Nat2Z.inj_succ, !Z.pow_succ_r in Hq by lia.
      simpl. rewrite (IH n); [reflexivity|].
      rewrite Nat2Z.inj_succ, Z.pow_succ_r by lia. lia.
  - destruct n as [|n]; [reflexivity|].
    rewrite Nat2Z.inj_succ, Z.pow_succ_r in Hq by lia.
    assert (0 < 2 ^ Z.of_nat n) by (apply Z.pow_pos_nonneg; lia). lia.
Qed.

Lemma digits2_pos_24 : forall q : positive,
  8388608 <= Zpos q < 16777216 -> Zpos (digits2_pos q) = 24.
Proof.
  intros q Hq. rewrite (digits2_pos_bounds q 23); [reflexivity | exact Hq].
Qed.

Lemma digits2_with_low : forall bits q,
  Zpos (digits2_pos (with_low bits q)) = Zpos (digits2_pos q) + Z.of_nat (List.length bits).
Proof.
  induction bits as [|b bs IH]; intros q.
  - simpl. lia.
  - cbn [with_low List.length]. destruct b; cbn [digits2_pos];
      rewrite Pos2Z.inj_succ, IH; lia.
Qed.

Lemma iter_pos_nat : forall (A : Type) (f : A -> A) (p : positive) (x : A),
  iter_pos f p x = Nat.iter (Pos.to_nat p) f x.
Proof.
  intros A f. induction p as [p IH | p IH |]; intros x; cbn [iter_pos].
  - rewrite !IH, Pos2Nat.inj_xI.
    replace (S (2 * Pos.to_nat p))%nat with (Pos.to_nat p + S (Pos.to_nat p))%nat by lia.
    rewrite Nat.iter_add, Nat.iter_succ_r. reflexivity.
  - rewrite !IH, Pos2Nat.inj_xO.
    replace (2 * Pos.to_nat p)%nat with (Pos.to_nat p + Pos.to_nat p)%nat by lia.
    rewrite Nat.iter_add. reflexivity.
  - reflexivity.
Qed.

Lemma shr_1_with_low : forall bits q r s,
  Nat.iter (List.length bits) shr_1 (Build_shr_record (Zpos (with_low bits q)) r s)
  = Build_shr_record (Zpos q) (fst (shift_out bits r s)) (snd (shift_out bits r s)).
Proof.
  induction bits as [|b bs IH]; intros q r s.
  - reflexivity.
  - cbn [List.length]. rewrite Nat.iter_succ_r.
    cbn [with_low shift_out]. destruct b; cbn [shr_1]; apply IH.
Qed.

Lemma binary_round_with_low : forall (bits : list bool) (q : positive) (d : positive) (e : Z),
  Pos.to_nat d = List.length bits ->
  8388608 <= Zpos q -> Zpos q + 1 < 16777216 ->
  -149 <= e + Zpos d <= 104 ->
  binary_round prec emax false (with_low bits q) e
  = S754_finite false (round_low bits q) (e + Zpos d).
Proof.
  intros bits q d e Hd Hlo Hhi He.
  assert (Hlen : Z.of_nat (List.length bits) = Zpos d) by lia.
  assert (Hdig : Zpos (digits2_pos (with_low bits q)) = 24 + Zpos d).
  { rewrite digits2_with_low, digits2_pos_24 by lia. lia. }
  unfold binary_round.
  assert (Hf : fexp prec emax (Zpos (digits2_pos (with_low bits q)) + e) = e + Zpos d).
  { rewrite Hdig. unfold fexp, emin, prec, emax. lia. }
  rewrite Hf. unfold shl_align.
  replace (IntDef.Z.sub (e + Zpos d) e) with (Zpos d) by lia.
  unfold binary_round_aux, shr_fexp.
  cbn [Zdigits2 shr_record_of_loc].
  replace (IntDef.Z.add (Z.pos (digits2_pos (with_low bits q))) e)
    with (Zpos (digits2_pos (with_low bits q)) + e) by reflexivity.
  rewrite Hf.
  replace (IntDef.Z.sub (e + Zpos d) e) with (Zpos d) by lia.
  cbn [shr]. rewrite iter_pos_nat, Hd, shr_1_with_low.
  unfold round_low. cbn [shr_m].
  set (rs := shift_out bits false false).
  set (Q := round_nearest_even (Zpos q) _).
  assert (HQ : exists q', Q = Zpos q' /\ 8388608 <= Zpos q' < 16777216).
  { unfold Q, loc_of_shr_record, round_nearest_even.
    destruct (fst rs), (snd rs); try destruct (IntDef.Z.even (Z.pos q));
      first [ exists q; split; [reflexivity | lia]
            | exists (q + 1)%positive; split; [reflexivity | lia] ]. }
  destruct HQ as (q' & HQ & Hq').
  rewrite HQ. cbn [Zdigits2 Z.to_pos].
  assert (Hf' : fexp prec emax (IntDef.Z.add (Zpos (digits2_pos q')) (IntDef.Z.add e (Zpos d))) = e + Zpos d).
  { change (IntDef.Z.add (Zpos (digits2_pos q')) (IntDef.Z.add e (Zpos d)))
      with (Zpos (digits2_pos q') + (e + Zpos d)).
    rewrite digits2_pos_24 by lia. unfold fexp, emin, prec, emax. lia. }
  rewrite Hf'.
  replace (IntDef.Z.sub (e + Zpos d) (IntDef.Z.add e (Zpos d))) with 0 by (change (IntDef.Z.add e (Zpos d)) with (e + Zpos d); lia).
  cbn [shr shr_m shr_record_of_loc].
  replace (IntDef.Z.leb (IntDef.Z.add e (Z.pos d)) (IntDef.Z.sub emax prec)) with true.
  - reflexivity.
  - symmetry. apply Z.leb_le. unfold emax, prec. change (IntDef.Z.add e (Zpos d)) with (e + Zpos d). change (IntDef.Z.sub 128 24) with 104. lia.
Qed.

Lemma SFadd_finite_pos : forall mx ex my ey,
  SFadd prec emax (S754_finite false mx ex) (S754_finite false my ey)
  = binary_normalize prec emax
      (Zpos (fst (shl_align mx ex (Z.min ex ey)) + fst (shl_align my ey (Z.min ex ey))))
      (Z.min ex ey) false.
Proof. reflexivity. Qed.


Ltac eval_shift_out :=
  match goal with
  | |- context [shift_out ?a ?b ?c] =>
      let v := eval vm_compute in (shift_out a b c) in
      change (shift_out a b c) with v
  end.

Ltac binade_step m e d q :=
  unfold fadd, lit_0_01; rewrite SFadd_finite_pos;
  change (Z.min e (-30)) with (-30);
  change (fst (shl_align 10737418 (-30) (-30))) with 10737418%positive;
  change (fst (shl_align m e (-30))) with (Pos.iter xO m d);
  let n := eval vm_compute in (Pos.to_nat d) in
  let E := fresh "E" in
  assert (E : (Pos.iter xO m d + 10737418)%positive = with_low (low_bits n) q)
    by (cbn; lia);
  rewrite E; unfold binary_normalize;
  rewrite (binary_round_with_low (low_bits n) q d (-30));
    try (reflexivity || lia);
  f_equal; unfold round_low; eval_shift_out; cbn; try lia.

Lemma fadd_in_binade : forall (e : Z) (D m : positive),
  In (e, D) binades ->
  8388608 <= Zpos m -> Zpos m + Zpos D + 1 < 16777216 ->
  fadd (S754_finite false m e) lit_0_01 = S754_finite false (m + D) e.
Proof.
  intros e D m Hin Hlo Hhi. unfold binades in Hin. cbn [In] in Hin.
  destruct Hin as [H|[H|[H|[H|[H|[H|[H|[H|[H|[H|[H|[H|[]]]]]]]]]]]]];
    injection H as <- <-.
  - binade_step m (-17) 13%positive (m + 1310)%positive.
  - binade_step m (-16) 14%positive (m + 655)%positive.
  - binade_step m (-15) 15%positive (m + 327)%positive.
  - binade_step m (-14) 16%positive (m + 163)%positive.
  - binade_step m (-13) 17%positive (m + 81)%positive.
  - binade_step m (-12) 18%positive (m + 40)%positive.
  - binade_step m (-11) 19%positive (m + 20)%positive.
  - binade_step m (-10) 20%positive (m + 10)%positive.
  - binade_step m (-9) 21%positive (m + 5)%positive.
  - binade_step m (-8) 22%positive (m + 2)%positive.
  - binade_step m (-7) 23%positive (m + 1)%positive.
  - binade_step m (-6) 24%positive m.
Qed.

Lemma growth_table_ok : table_ok growth_table.
Proof.
  unfold growth_table, table_ok, segment_ok.
  repeat match goal with
         | |- _ /\ _ => split
         | |- _ -> _ => intro
         | |- In _ _ => unfold binades; cbn [In]; tauto
         | |- True => exact I
         | |- _ = _ => vm_compute; reflexivity
         | |- _ => cbn in *; lia
         end.
Qed.

Lemma bound_limit_fixed : fadd bound_limit lit_0_01 = bound_limit.
Proof. vm_compute. reflexivity. Qed.

Lemma flt_same_exponent : forall (a b : positive) (e : Z),
  (a < b)%positive -> flt (S754_finite false a e) (S754_finite false b e) = true.
Proof.
  intros a b e Hab. unfold flt, SFltb, SFcompare.
  replace (IntDef.Z.compare e e) with Eq by (symmetry; apply Z.compare_refl).
  change (Pos.compare_cont Eq a b) with (Pos.compare a b).
  rewrite (proj2 (Pos.compare_lt_iff a b) Hab). reflexivity.
Qed.

Lemma table_length_nonneg : forall t, table_ok t -> 0 <= table_length t.
Proof.
  induction t as [|s t IH]; cbn [table_ok table_length]; [lia|].
  intros [(Hlen & _) Hok]. specialize (IH Hok). lia.
Qed.

Lemma walk_step : forall t, table_ok t -> forall k, 0 <= k ->
  fadd (walk t k) lit_0_01 = walk t (k + 1)
  /\ (k < table_length t -> flt (walk t k) (walk t (k + 1)) = true)
  /\ (table_length t <= k -> walk t k = bound_limit).
Proof.
  induction t as [|s t IH]; intros Hok k Hk.
  - cbn [walk table_length]. split; [apply bound_limit_fixed|]. split; [lia | reflexivity].
  - pose proof (table_length_nonneg t (proj2 Hok)) as Hnn.
    destruct Hok as [(Hlen & Hlo & Hhi0 & Hin & Hcross & Hlt) Hok].
    cbn [walk table_length].
    destruct (Z.leb_spec k (seg_len s)) as [Hle|Hgt].
    + destruct (Z.leb_spec (k + 1) (seg_len s)) as [Hle'|Hgt'].
      * destruct Hin as [Hin Hhi]; [lia|].
        assert (Hm : Zpos (seg_m0 s) + k * Zpos (seg_D s) + Zpos (seg_D s) + 1 < 16777216) by nia.
        unfold seg_value.
        set (m := Z.to_pos (Zpos (seg_m0 s) + k * Zpos (seg_D s))).
        assert (Em : Zpos m = Zpos (seg_m0 s) + k * Zpos (seg_D s))
          by (unfold m; rewrite Z2Pos.id; nia).
        replace (Z.to_pos (Zpos (seg_m0 s) + (k + 1) * Zpos (seg_D s)))
          with (m + seg_D s)%positive
          by (apply Pos2Z.inj; rewrite Pos2Z.inj_add, Em, Z2Pos.id; nia).
        split; [|split].
        -- apply fadd_in_binade; [exact Hin | nia | lia].
        -- intros _. apply flt_same_exponent. lia.
        -- intros Hc. lia.
      * assert (k = seg_len s) by lia. subst k.
        replace (seg_len s + 1 - seg_len s - 1) with 0 by lia.
        split; [exact Hcross|]. split; [intros _; exact Hlt|].
        intros Hc. lia.
    + destruct (Z.leb_spec (k + 1) (seg_len s)) as [Hle'|Hgt']; [lia|].
      replace (k + 1 - seg_len s - 1) with (k - seg_len s - 1 + 1) by lia.
      destruct (IH Hok (k - seg_len s - 1)) as (H1 & H2 & H3); [lia|].
      split; [exact H1|]. split; intros; [apply H2 | apply H3]; lia.
Qed.

Lemma growth_bound_walk : forall k : nat,
  growth_bound k = walk growth_table (Z.of_nat k).
Proof.
  induction k as [|k IH].
  - reflexivity.
  - change (growth_bound (S k)) with (fadd (growth_bound k) lit_0_01). rewrite IH.
    rewrite Nat2Z.inj_succ, <- Z.add_1_r.
    apply (walk_step growth_table growth_table_ok). lia.
Qed.

Lemma table_length_growth : table_length growth_table = saturation_iteration.
Proof. reflexivity. Qed.

Lemma fle_of_flt : forall a b, flt a b = true -> fle a b = true.
Proof.
  unfold flt, fle, SFltb, SFleb. intros a b. destruct (SFcompare a b) as [[]|]; congruence.
Qed.

Lemma growth_bound_facts : forall k : nat,
  growth_bound (S k) = fadd (growth_bound k) lit_0_01
  /\ fle (growth_bound k) (growth_bound (S k)) = true
  /\ (Z.of_nat k < saturation_iteration -> flt (growth_bound k) (growth_bound (S k)) = true)
  /\ (saturation_iteration <= Z.of_nat k -> growth_bound k = bound_limit).
Proof.
  intros k. split; [reflexivity|].
  rewrite !growth_bound_walk, Nat2Z.inj_succ, <- Z.add_1_r.
  destruct (walk_step growth_table growth_table_ok (Z.of_nat k)) as (H1 & H2 & H3); [lia|].
  rewrite table_length_growth in H2, H3.
  split; [|split; assumption].
  destruct (Z.lt_ge_cases (Z.of_nat k) saturation_iteration) as [Hlt|Hge].
  - apply fle_of_flt, H2, Hlt.
  - rewrite <- H1, (H3 Hge). vm_compute. reflexivity.
Qed.

(** ** The growth bound along a run *)

Section GrowthBoundOfRun.

Variable P : Platform.
Variable entropy : Z.
Variables COL ROW : list Z.
Variables NNZ n : Z.
Variable prm : Params.

Lemma max_bounds_growth_bound (VAL0 Y0 : list float) (k : nat) :
  max_bounds (after_iterations P COL ROW NNZ n prm k (initial_run P entropy n prm VAL0 Y0))
  = growth_bound k.
Proof. rewrite max_bounds_after_iterations. reflexivity. Qed.

(** C6 (amended): [max_bounds] starts at 100 and every turn replaces it by
    the binary32 sum [max_bounds + 0.01f].  It never decreases.  It
    strictly increases in each of the first 22908663 turns, after which it
    is 262144 and stays there: adding [0.01f] to 262144 gives 262144. *)
Theorem max_bounds_grows_until_saturation :
  forall (VAL0 Y0 : list float) (k : nat),
    let b := fun j : nat =>
      max_bounds (after_iterations P COL ROW NNZ n prm j
                    (initial_run P entropy n prm VAL0 Y0)) in
    b O = lit_100
    /\ b (S k) = fadd (b k) lit_0_01
    /\ fle (b k) (b (S k)) = true
    /\ (Z.of_nat k < saturation_iteration -> flt (b k) (b (S k)) = true)
    /\ (saturation_iteration <= Z.of_nat k -> b k = bound_limit /\ b (S k) = bound_limit).
Proof.
  intros VAL0 Y0 k b. subst b. cbv beta.
  rewrite !max_bounds_growth_bound.
  destruct (growth_bound_facts k) as (H1 & H2 & H3 & H4).
  repeat split; try assumption.
  - apply H4. assumption.
  - destruct (growth_bound_facts (S k)) as (_ & _ & _ & H5). apply H5. lia.
Qed.

End GrowthBoundOfRun.

(** ** Reproducibility and the caller's buffer [Y] *)

Lemma map_const_repeat (A B : Type) (v : B) (l : list A) :
  map (fun _ => v) l = repeat v (List.length l).
Proof. induction l as [|a l IH]; cbn; [reflexivity | rewrite IH; reflexivity]. Qed.

Lemma fill_range_whole (A : Type) (v : A) (len : nat) (buf : list A) :
  List.length buf = len -> fill_range 0 len v buf = repeat v len.
Proof.
  intros Hlen. unfold fill_range. cbn [firstn skipn Nat.add app].
  rewrite firstn_all2 by lia. rewrite skipn_all2 by lia.
  rewrite app_nil_r, map_const_repeat, Hlen. reflexivity.
Qed.

Lemma copyAsync_both_halves (A : Type) (d : A) (dst src : list A) (off len : nat) :
  List.length dst = (len + len)%nat ->
  copyAsync d (copyAsync d dst 0 src 0 len) len src off len
  = map (fun i => nth i src d) (seq 0 len)
    ++ map (fun i => nth (off + i) src d) (seq 0 len).
Proof.
  intros Hlen. unfold copyAsync. cbn [firstn Nat.add app].
  set (xs := map (fun i => nth i src d) (seq 0 len)).
  assert (Hxs : List.length xs = len) by (unfold xs; rewrite length_map, length_seq; reflexivity).
  rewrite firstn_app, Hxs, Nat.sub_diag, firstn_all2 by lia.
  cbn [firstn]. rewrite app_nil_r.
  rewrite skipn_all2; [rewrite app_nil_r; reflexivity|].
  rewrite length_app, length_skipn, Hxs. lia.
Qed.

Section BarnesHutInputs.

Variable P : Platform.
Variables COL ROW : list Z.
Variables NNZ n : Z.
Variable prm : Params.

Local Abbreviation iteration_ := (iteration P COL ROW NNZ n prm).
Local Abbreviation after_iterations_ := (after_iterations P COL ROW NNZ n prm).

Lemma initial_run_seeded (e1 e2 : Z) (VAL0 Y0 : list float) :
  0 <= random_state prm ->
  initial_run P e1 n prm VAL0 Y0 = initial_run P e2 n prm VAL0 Y0.
Proof.
  intros Hseed. unfold initial_run, initial_YY, random_vector.
  replace (random_state prm <? 0) with false by (symmetry; apply Z.ltb_ge; exact Hseed).
  reflexivity.
Qed.

Lemma initial_run_without_pca (e : Z) (VAL0 Y0 : list float) :
  pca_intialization prm = false ->
  initial_run P e n prm VAL0 Y0 = set_Y Y0 (initial_run P e n prm VAL0 []).
Proof.
  intros Hpca. unfold initial_run, initial_YY. rewrite Hpca. reflexivity.
Qed.

Lemma attraction_clears_Y (st : Run) :
  List.length (Y st) = Z.to_nat (n * 2) ->
  attraction P COL ROW NNZ n st
  = set_Y (attractive_kernel_bh P (VAL st) COL ROW (NNODES P n) n (YY st) (norm st)
             (norm_add1 st) (repeat zero (Z.to_nat (n * 2))) NNZ) st.
Proof.
  intros Hlen. unfold attraction. rewrite fill_range_whole by exact Hlen. reflexivity.
Qed.

(** The phases before the attraction leave [Y] where it is. *)
Lemma set_Y_exaggeration_switch iter y st :
  exaggeration_switch NNZ prm iter (set_Y y st)
  = set_Y y (exaggeration_switch NNZ prm iter st).
Proof.
  unfold exaggeration_switch. destruct (iter =? exaggeration_iter prm); reflexivity.
Qed.
Lemma set_Y_bounding_box y st : bounding_box P n (set_Y y st) = set_Y y (bounding_box P n st).
Proof. reflexivity. Qed.
Lemma set_Y_clear1 y st : clear1 P n (set_Y y st) = set_Y y (clear1 P n st).
Proof. reflexivity. Qed.
Lemma set_Y_tree_building y st :
  tree_building P n (set_Y y st) = set_Y y (tree_building P n st).
Proof. reflexivity. Qed.
Lemma set_Y_clear2 y st : clear2 P n (set_Y y st) = set_Y y (clear2 P n st).
Proof. reflexivity. Qed.
Lemma set_Y_summarization y st :
  summarization P n (set_Y y st) = set_Y y (summarization P n st).
Proof. reflexivity. Qed.
Lemma set_Y_sort y st : sort P n (set_Y y st) = set_Y y (sort P n st).
Proof. reflexivity. Qed.
Lemma set_Y_repulsion y st :
  repulsion P n prm (set_Y y st) = set_Y y (repulsion P n prm st).
Proof. reflexivity. Qed.
Lemma set_Y_normalization y st :
  normalization n (set_Y y st) = set_Y y (normalization n st).
Proof. reflexivity. Qed.
Lemma set_Y_norms y st : norms P n (set_Y y st) = set_Y y (norms P n st).
Proof. reflexivity. Qed.

Lemma attraction_forgets_Y (st : Run) (y1 y2 : list float) :
  List.length y1 = Z.to_nat (n * 2) -> List.length y2 = Z.to_nat (n * 2) ->
  attraction P COL ROW NNZ n (set_Y y1 st) = attraction P COL ROW NNZ n (set_Y y2 st).
Proof.
  intros H1 H2. rewrite !attraction_clears_Y by assumption. reflexivity.
Qed.

Lemma before_integration_forgets_Y (iter : Z) (st : Run) (y1 y2 : list float) :
  List.length y1 = Z.to_nat (n * 2) -> List.length y2 = Z.to_nat (n * 2) ->
  before_integration P COL ROW NNZ n prm iter (set_Y y1 st)
  = before_integration P COL ROW NNZ n prm iter (set_Y y2 st).
Proof.
  intros H1 H2. unfold before_integration, after_repulsion.
  assert (Hpush : forall y,
    norms P n (normalization n (repulsion P n prm (sort P n (summarization P n
      (clear2 P n (tree_building P n (clear1 P n (bounding_box P n
        (exaggeration_switch NNZ prm iter (set_Y y st))))))))))
    = set_Y y (norms P n (normalization n (repulsion P n prm (sort P n
        (summarization P n (clear2 P n (tree_building P n (clear1 P n
          (bounding_box P n (exaggeration_switch NNZ prm iter st))))))))))).
  { intros y.
    rewrite set_Y_exaggeration_switch, set_Y_bounding_box, set_Y_clear1,
      set_Y_tree_building, set_Y_clear2, set_Y_summarization, set_Y_sort,
      set_Y_repulsion, set_Y_normalization, set_Y_norms.
    reflexivity. }
  rewrite !Hpush. apply attraction_forgets_Y; assumption.
Qed.

Lemma iteration_forgets_Y (iter : Z) (st : Run) (y1 y2 : list float) :
  List.length y1 = Z.to_nat (n * 2) -> List.length y2 = Z.to_nat (n * 2) ->
  iteration_ iter (set_Y y1 st) = iteration_ iter (set_Y y2 st).
Proof.
  intros H1 H2. unfold iteration.
  rewrite (before_integration_forgets_Y iter st y1 y2 H1 H2). reflexivity.
Qed.

Lemma after_iterations_forget_Y (st : Run) (y1 y2 : list float) (k : nat) :
  List.length y1 = Z.to_nat (n * 2) -> List.length y2 = Z.to_nat (n * 2) ->
  after_iterations_ (S k) (set_Y y1 st) = after_iterations_ (S k) (set_Y y2 st).
Proof.
  intros H1 H2. induction k as [|k IH].
  - apply iteration_forgets_Y; assumption.
  - rewrite (after_iterations_S P COL ROW NNZ n prm (S k) (set_Y y1 st)).
    rewrite (after_iterations_S P COL ROW NNZ n prm (S k) (set_Y y2 st)).
    rewrite IH. reflexivity.
Qed.

Lemma copy_out_overwrites_Y (st : Run) :
  List.length (Y st) = Z.to_nat (n * 2) ->
  Y (copy_out P n st)
  = map (fun i => nth i (YY st) zero) (seq 0 (Z.to_nat n))
    ++ map (fun i => nth (Z.to_nat (NNODES P n + 1) + i)%nat (YY st) zero)
           (seq 0 (Z.to_nat n)).
Proof.
  intros Hlen. unfold copy_out. cbn [Y set_Y].
  apply copyAsync_both_halves. lia.
Qed.

Lemma copy_out_forgets_Y (st : Run) (y1 y2 : list float) :
  List.length y1 = Z.to_nat (n * 2) -> List.length y2 = Z.to_nat (n * 2) ->
  copy_out P n (set_Y y1 st) = copy_out P n (set_Y y2 st).
Proof.
  intros H1 H2.
  assert (E : forall y, copy_out P n (set_Y y st)
                        = set_Y (Y (copy_out P n (set_Y y st))) st) by reflexivity.
  rewrite (E y1), (E y2).
  rewrite (copy_out_overwrites_Y (set_Y y1 st) H1).
  rewrite (copy_out_overwrites_Y (set_Y y2 st) H2).
  reflexivity.
Qed.

(** C9: without PCA initialisation the positions are drawn at random and
    [Y] is not read; each attraction phase hands the kernel a cleared
    accumulator; on exit [Y] holds the first [n] entries of each half of
    [YY].  Two runs with the same seed (not negative) whose [Y] buffers,
    of [2 n] cells, differ in content end in the same state. *)
Theorem Barnes_Hut_ignores_contents_of_Y :
  forall (e1 e2 : Z) (VAL0 Y1 Y2 : list float),
    pca_intialization prm = false ->
    0 <= random_state prm ->
    List.length Y1 = Z.to_nat (n * 2) ->
    List.length Y2 = Z.to_nat (n * 2) ->
    Barnes_Hut P e1 COL ROW NNZ n prm VAL0 Y1 = Barnes_Hut P e2 COL ROW NNZ n prm VAL0 Y2
    /\ YY (initial_run P e1 n prm VAL0 Y1)
       = uniform_fill P (random_state prm) lit_m0_001 lit_0_001
           (Z.to_nat ((NNODES P n + 1) * 2))
    /\ (forall st : Run,
          List.length (Y st) = Z.to_nat (n * 2) ->
          attraction P COL ROW NNZ n st
          = set_Y (attractive_kernel_bh P (VAL st) COL ROW (NNODES P n) n (YY st)
                     (norm st) (norm_add1 st) (repeat zero (Z.to_nat (n * 2))) NNZ) st)
    /\ (forall st : Run,
          List.length (Y st) = Z.to_nat (n * 2) ->
          Y (copy_out P n st)
          = map (fun i => nth i (YY st) zero) (seq 0 (Z.to_nat n))
            ++ map (fun i => nth (Z.to_nat (NNODES P n + 1) + i)%nat (YY st) zero)
                   (seq 0 (Z.to_nat n))).
Proof.
  intros e1 e2 VAL0 Y1 Y2 Hpca Hseed H1 H2.
  split; [|split; [|split]].
  - rewrite !Barnes_Hut_total. f_equal.
    rewrite (initial_run_seeded e1 e2 VAL0 Y1 Hseed).
    rewrite (initial_run_without_pca e2 VAL0 Y1 Hpca).
    rewrite (initial_run_without_pca e2 VAL0 Y2 Hpca).
    destruct (Z.to_nat (max_iter prm)) as [|k].
    + apply copy_out_forgets_Y; assumption.
    + rewrite (after_iterations_forget_Y _ Y1 Y2 k H1 H2). reflexivity.
  - unfold initial_run, initial_YY, random_vector. cbn [YY]. rewrite Hpca.
    replace (random_state prm <? 0) with false by (symmetry; apply Z.ltb_ge; exact Hseed).
    reflexivity.
  - apply attraction_clears_Y.
  - apply copy_out_overwrites_Y.
Qed.

End BarnesHutInputs.

(** ** Runs on the small platform *)

Example growth_bound_first_turn :
  growth_bound 1 = S754_finite false 13108511 (-17).
Proof. vm_compute. reflexivity. Qed.

Example demo_run_returns_embedding :
  option_map (fun st => List.length (Y st)) (Demo.run 2 0 Demo.Y_in) = Some 4%nat.
Proof. vm_compute. reflexivity. Qed.


(** C6 (as stated, refuted).  In a run with a budget of 22908664 turns the
    turn with index 22908663 starts with [max_bounds] at 262144 and ends
    with [max_bounds] at 262144: the bound has not increased. *)
Lemma max_bounds_stalls_counterexample :
  22908663 < max_iter (Demo.params 22908664 250 42)
  /\ Demo.bound_after 22908664 (Z.to_nat 22908663) = bound_limit
  /\ Demo.bound_after 22908664 (S (Z.to_nat 22908663)) = bound_limit
  /\ flt (Demo.bound_after 22908664 (Z.to_nat 22908663))
         (Demo.bound_after 22908664 (S (Z.to_nat 22908663))) = false.
Proof.
  assert (H0 : saturation_iteration <= Z.of_nat (Z.to_nat 22908663)).
  { rewrite Z2Nat.id; [apply Z.le_refl | discriminate]. }
  assert (H1 : saturation_iteration <= Z.of_nat (S (Z.to_nat 22908663))).
  { rewrite Nat2Z.inj_succ. apply Z.le_le_succ_r. exact H0. }
  assert (E0 : Demo.bound_after 22908664 (Z.to_nat 22908663) = bound_limit).
  { unfold Demo.bound_after. rewrite max_bounds_growth_bound.
    apply (growth_bound_facts (Z.to_nat 22908663)). exact H0. }
  assert (E1 : Demo.bound_after 22908664 (S (Z.to_nat 22908663)) = bound_limit).
  { unfold Demo.bound_after. rewrite max_bounds_growth_bound.
    apply (growth_bound_facts (S (Z.to_nat 22908663))). exact H1. }
  split; [reflexivity|]. split; [exact E0|]. split; [exact E1|].
  rewrite E0, E1. reflexivity.
Qed.

(** The turn with index 250 of a run with the default horizon, learning
    rates and budget: the integrator is launched with the learning rate 200,
    not with [post_learning_rate] = 500. *)
Lemma learning_rate_at_default_horizon :
  learning_rate
    (before_integration Demo.platform Demo.COL Demo.ROW 2 2 (Demo.params 1000 250 42)
       (Z.of_nat 250)
       (after_iterations Demo.platform Demo.COL Demo.ROW 2 2 (Demo.params 1000 250 42) 250
          (initial_run Demo.platform 0 2 (Demo.params 1000 250 42) Demo.VAL Demo.Y_in)))
  = Demo.lit_200
  /\ post_learning_rate (Demo.params 1000 250 42) = Demo.lit_500.
Proof.
  split; [|reflexivity].
  rewrite learning_rate_before_integration, learning_rate_after_iterations. reflexivity.
Qed.

Lemma max_bounds_grows_witness :
  flt (Demo.bound_after 3 0) (Demo.bound_after 3 1) = true.
Proof.
  exact (proj1 (proj2 (proj2 (proj2
    (max_bounds_grows_until_saturation Demo.platform 0 Demo.COL Demo.ROW 2 2
       (Demo.params 3 250 42) Demo.VAL Demo.Y_in 0)))) eq_refl).
Defined.

Lemma Barnes_Hut_ignores_Y_witness :
  Barnes_Hut Demo.platform 1 Demo.COL Demo.ROW 2 2 (Demo.params 3 1 42) Demo.VAL Demo.Y_in
  = Barnes_Hut Demo.platform 2 Demo.COL Demo.ROW 2 2 (Demo.params 3 1 42) Demo.VAL
      [Demo.lit_7; Demo.lit_12; Demo.lit_200; Demo.lit_500].
Proof.
  apply (Barnes_Hut_ignores_contents_of_Y Demo.platform Demo.COL Demo.ROW 2 2
           (Demo.params 3 1 42) 1 2 Demo.VAL Demo.Y_in
           [Demo.lit_7; Demo.lit_12; Demo.lit_200; Demo.lit_500]).
  - reflexivity.
  - discriminate.
  - reflexivity.
  - reflexivity.
Defined.

(** ** [pcaFit] *)

Import PCA.

(** C7: [pcaFit] is abandoned with a message whenever [n_cols <= 1],
    [n_rows <= 1] or [n_components <= 0].  Otherwise it completes, and the
    computation runs on the input as passed and on the parameters as passed
    except that [n_components] is the smaller of [n_components] and
    [n_cols]; when [n_components <= n_cols] the parameters are untouched. *)
Theorem pcaFit_checks_then_clamps :
  forall (Input Output : Type) (fit_numerics : paramsPCA -> Input -> Output)
         (input : Input) (prms : paramsPCA),
    (n_cols prms <= 1 \/ n_rows prms <= 1 \/ n_components prms <= 0 ->
       exists msg : string,
         pcaFit Input Output fit_numerics input prms = Aborted msg /\ msg <> EmptyString)
    /\ (1 < n_cols prms -> 1 < n_rows prms -> 0 < n_components prms ->
          pcaFit Input Output fit_numerics input prms
          = Done (fit_numerics
                    (set_n_components (Z.min (n_components prms) (n_cols prms)) prms)
                    input)
          /\ (n_components prms <= n_cols prms ->
                pcaFit Input Output fit_numerics input prms
                = Done (fit_numerics prms input))).
Proof.
  intros Input Output fit_numerics input prms. unfold pcaFit, ASSERT, bind. split.
  - intros H.
    destruct (Z.ltb_spec 1 (n_cols prms)) as [Hc|Hc];
      [|eexists; split; [reflexivity | discriminate]].
    destruct (Z.ltb_spec 1 (n_rows prms)) as [Hr|Hr];
      [|eexists; split; [reflexivity | discriminate]].
    destruct (Z.ltb_spec 0 (n_components prms)) as [Hk|Hk];
      [|eexists; split; [reflexivity | discriminate]].
    lia.
  - intros Hc Hr Hk.
    destruct (Z.ltb_spec 1 (n_cols prms)) as [_|?]; [|lia].
    destruct (Z.ltb_spec 1 (n_rows prms)) as [_|?]; [|lia].
    destruct (Z.ltb_spec 0 (n_components prms)) as [_|?]; [|lia].
    destruct (Z.ltb_spec (n_cols prms) (n_components prms)) as [Hgt|Hle].
    + split; [|lia]. rewrite Z.min_r by lia. reflexivity.
    + assert (E : set_n_components (Z.min (n_components prms) (n_cols prms)) prms = prms).
      { rewrite Z.min_l by lia. destruct prms. reflexivity. }
      rewrite E. split; reflexivity.
Qed.

Lemma pcaFit_clamps_witness :
  pcaFit unit paramsPCA (fun prms _ => prms) tt (mkParamsPCA 10 3 5)
  = Done (mkParamsPCA 10 3 3).
Proof.
  exact (proj1 (proj2 (pcaFit_checks_then_clamps unit paramsPCA (fun prms _ => prms) tt
                         (mkParamsPCA 10 3 5)) eq_refl eq_refl eq_refl)).
Defined.

(** ** [eigh] *)

Lemma StronglySorted_snoc (A : Type) (R : A -> A -> Prop) (l : list A) (a : A) :
  StronglySorted R l -> Forall (fun x => R x a) l -> StronglySorted R (l ++ [a]).
Proof.
  induction 1 as [|b l Hl IH Hb]; intros Ha; cbn.
  - constructor; constructor.
  - inversion Ha; subst. constructor.
    + apply IH. assumption.
    + apply Forall_app. split; [assumption | constructor; [assumption | constructor]].
Qed.

Lemma StronglySorted_rev (A : Type) (R : A -> A -> Prop) (l : list A) :
  StronglySorted R l -> StronglySorted (fun a b => R b a) (rev l).
Proof.
  induction 1 as [|a l Hl IH Ha]; cbn.
  - constructor.
  - apply StronglySorted_snoc; [exact IH|].
    apply Forall_rev. exact Ha.
Qed.

Lemma StronglySorted_skipn (A : Type) (R : A -> A -> Prop) (k : nat) (l : list A) :
  StronglySorted R l -> StronglySorted R (skipn k l).
Proof.
  revert l. induction k as [|k IH]; intros l Hl; [exact Hl|].
  destruct l as [|a l]; [exact Hl|]. cbn. apply IH. inversion Hl; assumption.
Qed.

Lemma StronglySorted_map_In (A : Type) (R R' : A -> A -> Prop) (f : A -> A) (l : list A) :
  StronglySorted R l ->
  (forall x y, In x l -> In y l -> R x y -> R' (f x) (f y)) ->
  StronglySorted R' (map f l).
Proof.
  induction 1 as [|a l Hl IH Ha]; intros Hf; cbn.
  - constructor.
  - constructor.
    + apply IH. intros x y Hx Hy. apply Hf; right; assumption.
    + apply Forall_map. rewrite Forall_forall in *. intros y Hy.
      apply Hf; [left; reflexivity | right; exact Hy | apply Ha; exact Hy].
Qed.

Lemma In_firstn (A : Type) (k : nat) (l : list A) (x : A) :
  In x (firstn k l) -> In x l.
Proof.
  intros Hx. rewrite <- (firstn_skipn k l). apply in_or_app. left. exact Hx.
Qed.

Lemma firstn_unaryOp (A : Type) (f : A -> A) (k : nat) (l : list A) :
  firstn k (unaryOp f k l) = map f (firstn k l).
Proof.
  unfold unaryOp. rewrite firstn_app, length_map, length_firstn.
  rewrite (firstn_all2 (n := k)) by (rewrite length_map, length_firstn; lia).
  destruct (Nat.le_ge_cases k (List.length l)) as [H|H].
  - rewrite Nat.min_l by exact H. rewrite Nat.sub_diag. cbn. apply app_nil_r.
  - rewrite skipn_all2 by exact H. rewrite firstn_nil. apply app_nil_r.
Qed.

Lemma skipn_unaryOp (A : Type) (f : A -> A) (k : nat) (l : list A) :
  skipn k (unaryOp f k l) = skipn k l.
Proof.
  unfold unaryOp. rewrite skipn_app, length_map, length_firstn.
  destruct (Nat.le_ge_cases k (List.length l)) as [H|H].
  - rewrite Nat.min_l by exact H. rewrite Nat.sub_diag.
    rewrite skipn_all2 by (rewrite length_map, length_firstn; lia). reflexivity.
  - rewrite (skipn_all2 (n := k) l) by exact H.
    rewrite skipn_nil, app_nil_r.
    apply skipn_all2. rewrite length_map, length_firstn. lia.
Qed.

Lemma StronglySorted_firstn (A : Type) (R : A -> A -> Prop) (k : nat) (l : list A) :
  StronglySorted R l -> StronglySorted R (firstn k l).
Proof.
  revert l. induction k as [|k IH]; intros l Hl; [constructor|].
  destruct l as [|a l]; [constructor|]. cbn.
  inversion Hl as [|a' l' Hl' Ha]; subst. constructor.
  - apply IH. exact Hl'.
  - rewrite Forall_forall in *. intros x Hx. apply Ha. apply (In_firstn _ k). exact Hx.
Qed.

(** A list in two parts is sorted when both parts are and each entry of
    the first part is related to each entry of the second. *)
Lemma StronglySorted_app_iff (A : Type) (R : A -> A -> Prop) (l1 l2 : list A) :
  StronglySorted R (l1 ++ l2)
  <-> StronglySorted R l1 /\ StronglySorted R l2
      /\ (forall x y, In x l1 -> In y l2 -> R x y).
Proof.
  induction l1 as [|a l1 IH]; cbn.
  - split.
    + intros H. split; [constructor|]. split; [exact H|]. intros x y [].
    + intros (_ & H & _). exact H.
  - split.
    + intros H. inversion H as [|a' l' Hl Ha]; subst.
      apply IH in Hl. destruct Hl as (H1 & H2 & H12).
      apply Forall_app in Ha. destruct Ha as [Ha1 Ha2].
      split; [constructor; assumption|]. split; [exact H2|].
      intros x y [<-|Hx] Hy.
      * rewrite Forall_forall in Ha2. apply Ha2. exact Hy.
      * apply H12; assumption.
    + intros (H1 & H2 & H12). inversion H1 as [|a' l' Hl Ha]; subst.
      constructor.
      * apply IH. split; [exact Hl|]. split; [exact H2|].
        intros x y Hx Hy. apply H12; [right; exact Hx | exact Hy].
      * apply Forall_app. split; [exact Ha|].
        rewrite Forall_forall. intros y Hy. apply H12; [left; reflexivity | exact Hy].
Qed.

Section EighFacts.

Variable math_t : Type.
Variable zero : math_t.
Variable gt : math_t -> math_t -> bool.
Variable mySqrt : math_t -> math_t.
Variable le : math_t -> math_t -> Prop.
Variable syevd : nat -> list (list math_t) -> list math_t * list (list math_t).

Local Abbreviation eigh_ := (Eigh.eigh math_t zero gt mySqrt syevd).
Local Abbreviation root_or_zero_ := (Eigh.root_or_zero math_t zero gt mySqrt).
Local Abbreviation ascending_ := (Eigh.ascending math_t le).
Local Abbreviation descending_ := (Eigh.descending math_t le).

(** C10 (amended): let the solver leave its eigenvalues in ascending
    order, and let the square root of a positive eigenvalue be at least
    zero.  [eigh] returns the solver's eigenvectors with the columns in
    reverse order.  Without [singular_values], [W] is the solver's array
    reversed and is in descending order.  With [singular_values], each of
    the first [k] entries of the reversed array is replaced by its square
    root when it is positive and by zero when it is not, so each is at
    least zero; the entries from [k] on are left as they are and descend.
    When the replacement keeps the order of the eigenvalues, the first [k]
    entries descend too, and [W] as a whole descends exactly when no entry
    from [k] on exceeds any of the first [k] entries: so it does when [k]
    covers the array and when [k] is 0. *)
Theorem eigh_reverses_then_takes_roots :
  forall (V : list (list math_t)) (p k : nat) (singular_values : bool),
    ascending_ (fst (syevd p V)) ->
    le zero zero ->
    (forall x, In x (fst (syevd p V)) -> gt x zero = true -> le zero (mySqrt x)) ->
    let W1 := fst (syevd p V) in
    let W := fst (eigh_ V p k singular_values) in
    snd (eigh_ V p k singular_values) = rev (snd (syevd p V))
    /\ (singular_values = false -> W = rev W1 /\ descending_ W)
    /\ (singular_values = true ->
          firstn k W = map root_or_zero_ (firstn k (rev W1))
          /\ skipn k W = skipn k (rev W1)
          /\ Forall (le zero) (firstn k W)
          /\ descending_ (skipn k W)
          /\ ((forall x y, In x W1 -> In y W1 -> le x y ->
                           le (root_or_zero_ x) (root_or_zero_ y)) ->
              descending_ (firstn k W)
              /\ (descending_ W
                  <-> forall x y, In x (firstn k W) -> In y (skipn k W) -> le y x)
              /\ ((List.length W1 <= k)%nat -> descending_ W)
              /\ (k = 0%nat -> descending_ W))).
Proof.
  intros V p k sv Hasc Hzero Hsqrt W1 W.
  assert (Hdesc : descending_ (rev W1)) by (apply StronglySorted_rev; exact Hasc).
  split; [reflexivity|]. split.
  - intros ->. subst W. split; [reflexivity | exact Hdesc].
  - intros ->. subst W. unfold Eigh.eigh. cbn [fst].
    fold W1. unfold Eigh.colReverse.
    rewrite firstn_unaryOp, skipn_unaryOp.
    split; [reflexivity|]. split; [reflexivity|]. split; [|split].
    + apply Forall_map. rewrite Forall_forall. intros x Hx.
      unfold Eigh.root_or_zero. destruct (gt x zero) eqn:Hgt; [|exact Hzero].
      apply Hsqrt; [|exact Hgt].
      apply in_rev. apply (In_firstn _ k). exact Hx.
    + apply StronglySorted_skipn. exact Hdesc.
    + intros Hmono.
      assert (Hfirst : descending_ (map root_or_zero_ (firstn k (rev W1)))).
      { apply (StronglySorted_map_In math_t (fun a b => le b a)).
        - apply StronglySorted_firstn. exact Hdesc.
        - intros x y Hx Hy Hxy.
          apply Hmono; [| |exact Hxy];
            apply in_rev; apply (In_firstn _ k); assumption. }
      assert (Hrest : descending_ (skipn k (rev W1)))
        by (apply StronglySorted_skipn; exact Hdesc).
      assert (Hiff : descending_ (unaryOp root_or_zero_ k (rev W1))
                     <-> forall x y, In x (map root_or_zero_ (firstn k (rev W1))) ->
                                     In y (skipn k (rev W1)) -> le y x).
      { unfold unaryOp, Eigh.descending. rewrite StronglySorted_app_iff. split.
        - intros (_ & _ & H). exact H.
        - intros H. split; [exact Hfirst|]. split; [exact Hrest | exact H]. }
      split; [exact Hfirst|]. split; [exact Hiff|]. split.
      * intros Hlen. apply Hiff. intros x y _ Hy.
        rewrite skipn_all2 in Hy by (rewrite length_rev; exact Hlen). destruct Hy.
      * intros ->. apply Hiff. intros x y [].
Qed.

End EighFacts.

(** C10 (as stated, refuted).  For the matrix with diagonal 4, 3 the solver
    leaves the eigenvalues 3, 4; [eigh] with [k = 1] and [singular_values]
    returns [W] = 2, 3, which is not in descending order. *)
Lemma eigh_singular_values_counterexample :
  fst (Eigh.syevd_diagonal 2 Eigh.diag_4_3) = [Eigh.lit_3; Eigh.lit_4]
  /\ fst (Eigh.eigh_float Eigh.diag_4_3 2 1 true) = [Eigh.lit_2; Eigh.lit_3]
  /\ ~ Eigh.descending float Eigh.fle_prop (fst (Eigh.eigh_float Eigh.diag_4_3 2 1 true)).
Proof.
  split; [vm_compute; reflexivity|]. split; [vm_compute; reflexivity|].
  intros H.
  replace (fst (Eigh.eigh_float Eigh.diag_4_3 2 1 true)) with [Eigh.lit_2; Eigh.lit_3] in H
    by (vm_compute; reflexivity).
  inversion H as [|a l Hl Ha]; subst.
  inversion Ha as [|b l' Hb Hl']; subst.
  vm_compute in Hb. discriminate Hb.
Qed.

Lemma eigh_takes_roots_witness :
  Forall (Eigh.fle_prop Float32.zero) (firstn 2 (fst (Eigh.eigh_float Eigh.diag_4_3 2 2 true)))
  /\ Eigh.descending float Eigh.fle_prop (fst (Eigh.eigh_float Eigh.diag_4_3 2 2 true)).
Proof.
  assert (Hasc : Eigh.ascending float Eigh.fle_prop (fst (Eigh.syevd_diagonal 2 Eigh.diag_4_3)))
    by (repeat constructor).
  assert (Hzero : Eigh.fle_prop Float32.zero Float32.zero) by reflexivity.
  assert (Hsqrt : forall x, In x (fst (Eigh.syevd_diagonal 2 Eigh.diag_4_3)) ->
                            flt Float32.zero x = true -> Eigh.fle_prop Float32.zero (fsqrt x))
    by (intros x [<-|[<-|[]]] _; reflexivity).
  destruct (proj2 (proj2
    (eigh_reverses_then_takes_roots float Float32.zero (fun a b => flt b a) fsqrt
       Eigh.fle_prop Eigh.syevd_diagonal Eigh.diag_4_3 2 2 true Hasc Hzero Hsqrt)) eq_refl)
    as (_ & _ & Hnonneg & _ & Hmono).
  split; [exact Hnonneg|].
  assert (Hkeeps : forall x y,
             In x (fst (Eigh.syevd_diagonal 2 Eigh.diag_4_3)) ->
             In y (fst (Eigh.syevd_diagonal 2 Eigh.diag_4_3)) ->
             Eigh.fle_prop x y ->
             Eigh.fle_prop
               (Eigh.root_or_zero float Float32.zero (fun a b => flt b a) fsqrt x)
               (Eigh.root_or_zero float Float32.zero (fun a b => flt b a) fsqrt y)).
  { intros x y [<-|[<-|[]]] [<-|[<-|[]]] Hxy;
      first [reflexivity | vm_compute in Hxy; discriminate Hxy]. }
  destruct (Hmono Hkeeps) as (_ & _ & Hcovers & _).
  apply Hcovers. apply Nat.le_refl.
Defined.

(** The eigenvalues 4 and 1/4 with [k = 1] give [W] = 2, 1/4: [k] does not
    cover the array and [W] descends all the same. *)
Example eigh_descends_without_covering :
  fst (Eigh.eigh_float [[Eigh.lit_4; zero]; [zero; fdiv lit_1 Eigh.lit_4]] 2 1 true)
  = [Eigh.lit_2; fdiv lit_1 Eigh.lit_4]
  /\ Eigh.descending float Eigh.fle_prop
       (fst (Eigh.eigh_float [[Eigh.lit_4; zero]; [zero; fdiv lit_1 Eigh.lit_4]] 2 1 true)).
Proof.
  assert (E : fst (Eigh.eigh_float [[Eigh.lit_4; zero]; [zero; fdiv lit_1 Eigh.lit_4]]
                     2 1 true)
              = [Eigh.lit_2; fdiv lit_1 Eigh.lit_4]) by (vm_compute; reflexivity).
  split; [exact E|]. rewrite E.
  repeat constructor.
Qed.


(** * Further properties of the code *)

(** ** More binary32 arithmetic *)

(** Rounding a number that is already in canonical form gives it back. *)
Lemma binary_round_aux_canonical (s : bool) (m : positive) (e : Z) :
  bounded prec emax m e = true ->
  binary_round_aux prec emax s (Zpos m) e loc_Exact = S754_finite s m e.
Proof.
  unfold bounded, canonical_mantissa. intros H.
  apply andb_prop in H. destruct H as [Hc He].
  apply Z.eqb_eq in Hc.
  unfold binary_round_aux, shr_fexp. cbn [Zdigits2 shr_record_of_loc].
  change (IntDef.Z.add (Zpos (digits2_pos m)) e) with (Zpos (digits2_pos m) + e).
  rewrite Hc.
  replace (IntDef.Z.sub e e) with 0 by (symmetry; apply Z.sub_diag).
  cbn [shr shr_m loc_of_shr_record round_nearest_even Zdigits2 shr_record_of_loc].
  change (IntDef.Z.add (Zpos (digits2_pos m)) e) with (Zpos (digits2_pos m) + e).
  rewrite Hc.
  replace (IntDef.Z.sub e e) with 0 by (symmetry; apply Z.sub_diag).
  cbn [shr shr_m]. rewrite He. reflexivity.
Qed.

Lemma with_low_zeros (k : nat) (m : positive) :
  Zpos (with_low (repeat false k) m) = Zpos m * 2 ^ Z.of_nat k.
Proof.
  induction k as [|k IH].
  - cbn. lia.
  - cbn [repeat with_low]. rewrite Pos2Z.inj_xO, IH, Nat2Z.inj_succ, Z.pow_succ_r by lia. lia.
Qed.

Lemma shift_out_zeros (k : nat) : shift_out (repeat false k) false false = (false, false).
Proof. induction k as [|k IH]; [reflexivity | exact IH]. Qed.

(** Multiplying a well-formed number by 1.0f gives it back. *)
Lemma fmul_one (x : float) : well_formed x -> fmul x lit_1 = x.
Proof.
  intros [Hx _].
  destruct x as [s|s| |s m e]; try (destruct s; reflexivity); [reflexivity|].
  cbn [valid_binary] in Hx.
  unfold fmul, lit_1, SFmul.
  replace (xorb s false) with s by (destruct s; reflexivity).
  assert (Em : Pos.mul m 8388608 = with_low (repeat false 23) m).
  { apply Pos2Z.inj. rewrite with_low_zeros. rewrite Pos2Z.inj_mul. reflexivity. }
  rewrite Em.
  pose proof Hx as Hb. unfold bounded, canonical_mantissa in Hb.
  apply andb_prop in Hb. destruct Hb as [Hc He]. apply Z.eqb_eq in Hc.
  unfold binary_round_aux, shr_fexp. cbn [Zdigits2 shr_record_of_loc].
  assert (Hf : fexp prec emax (IntDef.Z.add (Zpos (digits2_pos (with_low (repeat false 23) m)))
                                 (IntDef.Z.add e (-23))) = e).
  { change (fexp prec emax (Zpos (digits2_pos (with_low (repeat false 23) m)) + (e + -23)) = e).
    rewrite digits2_with_low, repeat_length.
    replace (Zpos (digits2_pos m) + Z.of_nat 23 + (e + -23)) with (Zpos (digits2_pos m) + e) by lia.
    exact Hc. }
  rewrite Hf.
  replace (IntDef.Z.sub e (IntDef.Z.add e (-23))) with 23
    by (change (IntDef.Z.add e (-23)) with (e + -23); change (IntDef.Z.sub e (e + -23)) with (e - (e + -23)); lia).
  cbn [shr]. rewrite iter_pos_nat.
  change (Pos.to_nat 23) with (List.length (repeat false 23)).
  rewrite shr_1_with_low, shift_out_zeros.
  cbn [fst snd shr_m loc_of_shr_record round_nearest_even Zdigits2 shr_record_of_loc].
  assert (Hf' : fexp prec emax (IntDef.Z.add (Zpos (digits2_pos m))
                                  (IntDef.Z.add (IntDef.Z.add e (-23)) 23)) = e).
  { change (fexp prec emax (Zpos (digits2_pos m) + (e + -23 + 23)) = e).
    replace (e + -23 + 23) with e by lia. exact Hc. }
  rewrite Hf'.
  replace (IntDef.Z.sub e (IntDef.Z.add (IntDef.Z.add e (-23)) 23)) with 0
    by (change (e - (e + -23 + 23)) with (e - (e + -23 + 23)); change (0 = e - (e + -23 + 23)); lia).
  cbn [shr shr_m].
  replace (IntDef.Z.add (IntDef.Z.add e (-23)) 23) with e by (change (e = e + -23 + 23); lia).
  rewrite He. reflexivity.
Qed.

Lemma shr_1_nonneg (mrs : shr_record) : 0 <= shr_m mrs -> 0 <= shr_m (shr_1 mrs).
Proof.
  destruct mrs as [m r s]. destruct m as [|p|p]; [| destruct p |]; cbn; lia.
Qed.

Lemma shr_nonneg (mrs : shr_record) (e n : Z) :
  0 <= shr_m mrs -> 0 <= shr_m (fst (shr mrs e n)).
Proof.
  intros H. destruct n as [|p|p]; cbn [shr fst]; try exact H.
  rewrite iter_pos_nat. induction (Pos.to_nat p) as [|k IH]; cbn [Nat.iter]; [exact H|].
  apply shr_1_nonneg. exact IH.
Qed.

Lemma shr_record_of_loc_m (m : Z) (l : location) : shr_m (shr_record_of_loc m l) = m.
Proof. destruct l as [|[]]; reflexivity. Qed.

Lemma round_nearest_even_nonneg (m : Z) (l : location) :
  0 <= m -> 0 <= round_nearest_even m l.
Proof.
  intros H. unfold round_nearest_even.
  destruct l as [|[]]; try destruct (IntDef.Z.even m);
    try exact H; change (0 <= m + 1); lia.
Qed.

(** Rounding a mantissa that is not negative never gives a NaN or a
    negative number. *)
Lemma binary_round_aux_nonneg (m e : Z) (l : location) :
  0 <= m -> fle zero (binary_round_aux prec emax false m e l) = true.
Proof.
  intros Hm. unfold binary_round_aux, shr_fexp.
  set (s1 := shr (shr_record_of_loc m l) e _).
  assert (H1 : 0 <= shr_m (fst s1))
    by (apply shr_nonneg; rewrite shr_record_of_loc_m; exact Hm).
  destruct s1 as [mrs' e']. cbn [fst] in H1.
  set (s2 := shr _ e' _).
  assert (H2 : 0 <= shr_m (fst s2)).
  { apply shr_nonneg. rewrite shr_record_of_loc_m.
    apply round_nearest_even_nonneg. exact H1. }
  destruct s2 as [mrs'' e'']. cbn [fst] in H2.
  destruct (shr_m mrs'') as [|p|p]; [reflexivity | | lia].
  destruct (IntDef.Z.leb e'' (IntDef.Z.sub emax prec)); reflexivity.
Qed.

Lemma fsqrt_nonneg (x : float) : flt zero x = true -> fle zero (fsqrt x) = true.
Proof.
  destruct x as [s|s| |s m e]; try discriminate.
  - destruct s; [discriminate | reflexivity].
  - destruct s; [discriminate|]. intros _.
    unfold fsqrt, SFsqrt, SFsqrt_core_binary.
    set (m' := match _ with Z0 => _ | Zpos _ => _ | Zneg _ => _ end).
    pose proof (Z.sqrtrem_sqrt m') as Hq.
    pose proof (Z.sqrt_nonneg m') as Hs.
    change Z.sqrtrem with IntDef.Z.sqrtrem in Hq.
    destruct (IntDef.Z.sqrtrem m') as [q r]. cbn [fst] in Hq. subst q.
    apply binary_round_aux_nonneg. exact Hs.
Qed.

Lemma fsub_self (x : float) :
  (exists s m e, x = S754_finite s m e) \/ x = zero -> fsub x x = zero.
Proof.
  intros [(s & m & e & ->)| ->]; [|reflexivity].
  unfold fsub, SFsub.
  replace (IntDef.Z.sub _ _) with 0 by (symmetry; apply Z.sub_diag).
  reflexivity.
Qed.

Lemma digits2_pos_lower (q : positive) : 2 ^ (Zpos (digits2_pos q) - 1) <= Zpos q.
Proof.
  induction q as [q IH|q IH|]; cbn [digits2_pos]; [| |cbn; lia];
    rewrite Pos2Z.inj_succ;
    replace (Z.succ (Zpos (digits2_pos q)) - 1) with (Z.succ (Zpos (digits2_pos q) - 1)) by lia;
    rewrite Z.pow_succ_r by lia; lia.
Qed.

Lemma iter_xO_with_low (s : positive) (n : positive) :
  Pos.iter xO n s = with_low (repeat false (Pos.to_nat s)) n.
Proof.
  induction s as [|s IH] using Pos.peano_ind.
  - reflexivity.
  - rewrite Pos.iter_succ, IH, Pos2Nat.inj_succ. reflexivity.
Qed.

(** [(float) n] for a positive [n] below 2^24: the mantissa is [n] shifted
    up to 24 bits. *)
Lemma float_of_int_small (n : positive) :
  Zpos n < 16777216 ->
  exists (m : positive) (e : Z),
    float_of_int (Zpos n) = S754_finite false m e
    /\ e <= 0 /\ Zpos m = Zpos n * 2 ^ (- e).
Proof.
  intros Hn.
  pose proof (digits2_pos_lower n) as Hlow.
  set (d := Zpos (digits2_pos n)) in *.
  assert (Hd : 1 <= d <= 24).
  { split; [unfold d; lia|].
    destruct (Z.le_gt_cases d 24) as [H|H]; [exact H|].
    assert (2 ^ 24 <= 2 ^ (d - 1)) by (apply Z.pow_le_mono_r; lia).
    change (2 ^ 24) with 16777216 in *. lia. }
  unfold float_of_int, binary_normalize, binary_round.
  assert (Hf : fexp prec emax (IntDef.Z.add (Zpos (digits2_pos n)) 0) = d - 24).
  { change (fexp prec emax (d + 0) = d - 24). unfold fexp, emin, prec, emax. lia. }
  rewrite Hf. unfold shl_align.
  destruct (Z.eq_dec d 24) as [E|E].
  - rewrite E. cbn [Z.sub Z.add Z.opp Z.pos_sub]. 
    change (IntDef.Z.sub (24 - 24) 0) with 0.
    exists n, 0. split; [|split; [lia | cbn; lia]].
    apply binary_round_aux_canonical.
    unfold bounded, canonical_mantissa. apply andb_true_intro. split; [|reflexivity].
    apply Z.eqb_eq. change (fexp prec emax (d + 0) = 0). rewrite E. reflexivity.
  - assert (Hs : exists sh : positive, d - 24 = Zneg sh).
    { destruct (d - 24) as [|p|p] eqn:Ed; [lia | lia | exists p; reflexivity]. }
    destruct Hs as [sh Hsh].
    replace (IntDef.Z.sub (d - 24) 0) with (Zneg sh) by (rewrite <- Hsh; symmetry; apply Z.sub_0_r).
    rewrite iter_xO_with_low.
    exists (with_low (repeat false (Pos.to_nat sh)) n), (d - 24).
    split; [|split; [lia|]].
    + apply binary_round_aux_canonical.
      unfold bounded, canonical_mantissa. apply andb_true_intro. split.
      * apply Z.eqb_eq.
        change (fexp prec emax (Zpos (digits2_pos (with_low (repeat false (Pos.to_nat sh)) n)) + (d - 24)) = d - 24).
        rewrite digits2_with_low, repeat_length. fold d.
        unfold fexp, emin, prec, emax. lia.
      * apply Z.leb_le. unfold emax, prec. lia.
    + rewrite with_low_zeros. f_equal. f_equal. lia.
Qed.

(** ** The normalisation constant, lines 296-311 and 335-339 *)



Section NormalisationConstant.

Variable P : Platform.
Variable entropy : Z.
Variables COL ROW : list Z.
Variables NNZ n : Z.
Variable prm : Params.



End NormalisationConstant.



(** ** Sizes of the tree arrays *)

Lemma align_nnodes_bounds (fuel : nat) (nnodes : Z) :
  nnodes <= align_nnodes fuel nnodes <= nnodes + (- nnodes) mod 32.
Proof.
  assert (Hland : forall x, Z.land x (32 - 1) = x mod 32)
    by (intros x; apply (Z.land_ones x 5); lia).
  revert nnodes. induction fuel as [|fuel IH]; intros nnodes.
  - cbn [align_nnodes]. pose proof (Z.mod_pos_bound (- nnodes) 32). lia.
  - cbn [align_nnodes].
    destruct (Z.eqb_spec (Z.land nnodes (32 - 1)) 0) as [E|E]; cbn [negb].
    + pose proof (Z.mod_pos_bound (- nnodes) 32). lia.
    + rewrite Hland in E. specialize (IH (nnodes + 1)).
      assert (Hstep : (- (nnodes + 1)) mod 32 = (- nnodes) mod 32 - 1).
      { pose proof (Z.mod_pos_bound nnodes 32).
        pose proof (Z.mod_pos_bound (- nnodes) 32).
        pose proof (Z.mod_pos_bound (- (nnodes + 1)) 32).
        pose proof (Z.div_mod nnodes 32).
        pose proof (Z.div_mod (- nnodes) 32).
        pose proof (Z.div_mod (- (nnodes + 1)) 32).
        lia. }
      lia.
Qed.

Lemma compute_nnodes_window (blocks n : Z) :
  (compute_nnodes blocks n + 1) mod 32 = 0
  /\ Z.max (n * 2) (1024 * blocks) <= compute_nnodes blocks n + 1
     < Z.max (n * 2) (1024 * blocks) + 32.
Proof.
  split; [apply compute_nnodes_aligned|].
  unfold compute_nnodes.
  set (m := if n * 2 <? 1024 * blocks then 1024 * blocks else n * 2).
  assert (Hm : m = Z.max (n * 2) (1024 * blocks))
    by (unfold m; destruct (Z.ltb_spec (n * 2) (1024 * blocks)); lia).
  rewrite <- Hm.
  pose proof (align_nnodes_bounds 32 m) as H.
  pose proof (Z.mod_pos_bound (- m) 32). lia.
Qed.

Lemma int_range_spec (x : Z) : int_range x = true <-> - 2147483648 <= x < 2147483648.
Proof.
  unfold int_range. change (2 ^ 31) with 2147483648.
  rewrite andb_true_iff, Z.leb_le, Z.ltb_lt. reflexivity.
Qed.

Lemma int_wrap_small (x : Z) :
  - 2147483648 <= x < 2147483648 -> int_wrap x = x.
Proof.
  intros H. unfold int_wrap.
  change (2 ^ 31) with 2147483648. change (2 ^ 32) with 4294967296.
  rewrite Z.mod_small by lia. lia.
Qed.

Lemma size_t_wrap_small (x : Z) :
  0 <= x < 18446744073709551616 -> size_t_wrap x = x.
Proof. intros H. unfold size_t_wrap. apply Z.mod_small. exact H. Qed.

Lemma align_nnodes_int_exact (fuel : nat) (nnodes : Z) :
  - 2147483648 <= nnodes -> nnodes + (- nnodes) mod 32 < 2147483648 ->
  align_nnodes_int fuel nnodes = align_nnodes fuel nnodes.
Proof.
  assert (Hland : forall x, Z.land x (32 - 1) = x mod 32)
    by (intros x; apply (Z.land_ones x 5); lia).
  revert nnodes. induction fuel as [|fuel IH]; intros nnodes Hlo Hhi; [reflexivity|].
  cbn [align_nnodes_int align_nnodes].
  destruct (Z.eqb_spec (Z.land nnodes (32 - 1)) 0) as [E|E]; cbn [negb]; [reflexivity|].
  rewrite Hland in E.
  assert (Hstep : (- (nnodes + 1)) mod 32 = (- nnodes) mod 32 - 1).
  { pose proof (Z.mod_pos_bound nnodes 32).
    pose proof (Z.mod_pos_bound (- nnodes) 32).
    pose proof (Z.mod_pos_bound (- (nnodes + 1)) 32).
    pose proof (Z.div_mod nnodes 32).
    pose proof (Z.div_mod (- nnodes) 32).
    pose proof (Z.div_mod (- (nnodes + 1)) 32).
    lia. }
  pose proof (Z.mod_pos_bound (- (nnodes + 1)) 32).
  rewrite int_wrap_small by lia.
  apply IH; lia.
Qed.

Lemma compute_nnodes_int_exact (blocks n : Z) :
  0 <= n <= 1073741808 -> 0 <= blocks <= 2097151 ->
  compute_nnodes_int blocks n = compute_nnodes blocks n.
Proof.
  intros Hn Hb. unfold compute_nnodes_int, compute_nnodes.
  rewrite (int_wrap_small (n * 2)) by lia.
  rewrite (int_wrap_small (1024 * blocks)) by lia.
  set (m := if n * 2 <? 1024 * blocks then 1024 * blocks else n * 2).
  assert (Hm : 0 <= m <= 2147483616)
    by (unfold m; destruct (Z.ltb_spec (n * 2) (1024 * blocks)); lia).
  pose proof (Z.mod_pos_bound (- m) 32).
  rewrite align_nnodes_int_exact by lia.
  pose proof (align_nnodes_bounds 32 m).
  apply int_wrap_small. lia.
Qed.

(** X1: for at most [2^30 - 16 = 1073741808] points and at most
    [2^21 - 1 = 2097151] multiprocessors no [int] of lines 71-74
    overflows: [nnodes] is the number computed without bounds, and
    [nnodes + 1] is the least multiple of 32 that is at least [2 n] and at
    least [1024] per multiprocessor. *)
Theorem compute_nnodes_least_multiple_of_32 :
  forall blocks n : Z,
    0 <= n <= 1073741808 -> 0 <= blocks <= 2097151 ->
    compute_nnodes_int blocks n = compute_nnodes blocks n
    /\ (compute_nnodes_int blocks n + 1) mod 32 = 0
    /\ Z.max (n * 2) (1024 * blocks) <= compute_nnodes_int blocks n + 1
    /\ compute_nnodes_int blocks n + 1 < Z.max (n * 2) (1024 * blocks) + 32.
Proof.
  intros blocks n Hn Hb.
  rewrite (compute_nnodes_int_exact blocks n Hn Hb).
  destruct (compute_nnodes_window blocks n) as [Hmod Hwin].
  split; [reflexivity|]. split; [exact Hmod | lia].
Qed.

Lemma compute_nnodes_witness :
  compute_nnodes_int 1 2 = 1023 /\ (compute_nnodes_int 1 2 + 1) mod 32 = 0.
Proof.
  assert (Hn : 0 <= 2 <= 1073741808) by (split; discriminate).
  assert (Hb : 0 <= 1 <= 2097151) by (split; discriminate).
  pose proof (compute_nnodes_least_multiple_of_32 1 2 Hn Hb) as (E & Hmod & _).
  split; [|exact Hmod].
  etransitivity; [exact E | reflexivity].
Defined.

(** With [2^30] points line 71 overflows: [n * 2] is [-2^31] as an
    [int], and the tree gets the 1024 cells of a run without points. *)
Example compute_nnodes_int_overflows :
  compute_nnodes_int 1 1073741824 = 1023
  /\ compute_nnodes 1 1073741824 = 2147483647.
Proof. split; vm_compute; reflexivity. Qed.

Lemma int_wrap_size_t (x : Z) : int_wrap (size_t_wrap x) = int_wrap x.
Proof.
  unfold int_wrap, size_t_wrap. f_equal.
  change (2 ^ 64) with 18446744073709551616.
  change (2 ^ 32) with 4294967296. change (2 ^ 31) with 2147483648.
  replace (x + 2147483648)
    with (x mod 18446744073709551616 + 2147483648
          + x / 18446744073709551616 * 4294967296 * 4294967296)
    by (pose proof (Z.div_mod x 18446744073709551616); lia).
  symmetry. apply Z_mod_plus_full.
Qed.

Lemma int_wrap_add_l (a b : Z) : int_wrap (int_wrap a + b) = int_wrap (a + b).
Proof.
  unfold int_wrap. f_equal.
  change (2 ^ 32) with 4294967296. change (2 ^ 31) with 2147483648.
  replace (a + b + 2147483648)
    with ((a + 2147483648) mod 4294967296 - 2147483648 + b + 2147483648
          + (a + 2147483648) / 4294967296 * 4294967296)
    by (pose proof (Z.div_mod (a + 2147483648) 4294967296); lia).
  symmetry. apply Z_mod_plus_full.
Qed.

(** Adding bytes to [workspace_size] wraps once, at the width of [int]. *)
Lemma add_bytes_wraps (workspace_size bytes : Z) :
  add_bytes workspace_size bytes = int_wrap (workspace_size + bytes).
Proof.
  unfold add_bytes. rewrite int_wrap_size_t.
  unfold int_wrap, size_t_wrap. f_equal.
  change (2 ^ 64) with 18446744073709551616.
  change (2 ^ 32) with 4294967296. change (2 ^ 31) with 2147483648.
  replace (workspace_size + bytes + 2147483648)
    with (workspace_size mod 18446744073709551616 + bytes + 2147483648
          + workspace_size / 18446744073709551616 * 4294967296 * 4294967296)
    by (pose proof (Z.div_mod workspace_size 18446744073709551616); lia).
  symmetry. apply Z_mod_plus_full.
Qed.

Lemma times_sizeof_small (x : Z) : 0 <= x < 2147483648 -> times_sizeof x = 4 * x.
Proof.
  intros H. unfold times_sizeof.
  rewrite (size_t_wrap_small x) by lia. rewrite size_t_wrap_small by lia. lia.
Qed.

(** X2: for at most [2^28 - 16] points, on a device with 1 to [2^19 - 1]
    multiprocessors and a grid factor from 0 to 256, the sizes are the
    numbers computed without bounds and the tests of lines 135 and 160
    succeed: the reduction arrays always live in [sortl] and [norm],
    [norm_add1] and [sums] always live in [childl]; the branches that
    allocate them are never taken.  [workspace_size] grows by
    [16 n + 8 + 8 (nnodes + 1) + 16 blocks FACTOR1] bytes, wrapped to the
    range of [int]: it has that very value whenever that is below
    [2^31]. *)
Theorem scratch_buffers_always_share_storage :
  forall (P : Platform) (n workspace_size : Z),
    0 <= n <= 268435440 -> 1 <= blocks P <= 524287 -> 0 <= FACTOR1 P <= 256 ->
    int_range workspace_size = true ->
    let nnodes := compute_nnodes_int (blocks P) n in
    let total :=
      workspace_size + 16 * n + 8 + 8 * (nnodes + 1) + 16 * blocks P * FACTOR1 P in
    nnodes = NNODES P n
    /\ reductions_fit_in_sortl (blocks P) (FACTOR1 P) nnodes = true
    /\ norms_fit_in_childl nnodes n = true
    /\ workspace_size_saved P n workspace_size = int_wrap total
    /\ (total < 2147483648 -> workspace_size_saved P n workspace_size = total).
Proof.
  intros P n ws Hn Hb Hf Hws nnodes total.
  apply int_range_spec in Hws.
  assert (Hnn : nnodes = NNODES P n)
    by (apply compute_nnodes_int_exact; lia).
  destruct (compute_nnodes_window (blocks P) n) as (_ & Hge & Hlt).
  fold (NNODES P n) in Hge, Hlt. rewrite <- Hnn in Hge, Hlt.
  assert (Hbf : 0 <= blocks P * FACTOR1 P <= 134217472) by nia.
  assert (Hbf' : blocks P * FACTOR1 P <= 256 * blocks P) by nia.
  assert (E1 : times_sizeof (int_wrap (n * 2)) = 8 * n).
  { rewrite int_wrap_small by lia. rewrite times_sizeof_small by lia. lia. }
  assert (E2 : times_sizeof (int_wrap (int_wrap (nnodes + 1) * 2)) = 8 * (nnodes + 1)).
  { rewrite (int_wrap_small (nnodes + 1)) by lia. rewrite int_wrap_small by lia.
    rewrite times_sizeof_small by lia. lia. }
  assert (E3 : times_sizeof (int_wrap (int_wrap (4 * blocks P) * FACTOR1 P))
               = 16 * blocks P * FACTOR1 P).
  { rewrite (int_wrap_small (4 * blocks P)) by lia.
    rewrite int_wrap_small by lia. rewrite times_sizeof_small by lia. lia. }
  assert (E4 : times_sizeof (int_wrap (int_wrap (n + n) + 2)) = 8 * n + 8).
  { rewrite (int_wrap_small (n + n)) by lia. rewrite int_wrap_small by lia.
    rewrite times_sizeof_small by lia. lia. }
  assert (E5 : times_sizeof (int_wrap (int_wrap (nnodes + 1) * 4)) = 16 * (nnodes + 1)).
  { rewrite (int_wrap_small (nnodes + 1)) by lia. rewrite int_wrap_small by lia.
    rewrite times_sizeof_small by lia. lia. }
  assert (H1 : reductions_fit_in_sortl (blocks P) (FACTOR1 P) nnodes = true).
  { unfold reductions_fit_in_sortl. rewrite E3.
    rewrite (int_wrap_small (nnodes + 1)) by lia.
    rewrite (size_t_wrap_small (nnodes + 1)) by lia.
    rewrite size_t_wrap_small by lia. apply Z.leb_le. lia. }
  assert (H2 : norms_fit_in_childl nnodes n = true).
  { unfold norms_fit_in_childl. rewrite E4, E5. apply Z.leb_le. lia. }
  assert (Hsaved : workspace_size_saved P n ws = int_wrap total).
  { unfold workspace_size_saved. fold nnodes. rewrite H1, H2, E1, E2, E3, E4.
    rewrite !add_bytes_wraps.
    repeat (rewrite int_wrap_add_l, <- ?Z.add_assoc).
    f_equal. unfold total. lia. }
  split; [exact Hnn|]. split; [exact H1|]. split; [exact H2|].
  split; [exact Hsaved|].
  intros Htotal. rewrite Hsaved. apply int_wrap_small. unfold total in *. lia.
Qed.

Lemma scratch_buffers_share_witness :
  norms_fit_in_childl (compute_nnodes_int 1 2) 2 = true
  /\ workspace_size_saved Demo.platform 2 0 = 8280.
Proof.
  assert (Hn : 0 <= 2 <= 268435440) by (split; discriminate).
  assert (Hb : 1 <= blocks Demo.platform <= 524287) by (split; discriminate).
  assert (Hf : 0 <= FACTOR1 Demo.platform <= 256) by (split; discriminate).
  pose proof (scratch_buffers_always_share_storage Demo.platform 2 0 Hn Hb Hf eq_refl)
    as (_ & _ & Hfit & _ & Hsaved).
  split; [exact Hfit|].
  etransitivity; [apply Hsaved; reflexivity | reflexivity].
Defined.

(** Beyond that the printed figure wraps: for 67108861 points the bytes
    saved exceed [2^31] and line 190 prints a negative number. *)
Example saved_megabytes_wraps :
  saved_megabytes Demo.platform 67108861 0 = -2048.
Proof. vm_compute. reflexivity. Qed.

(** ** The point count as a binary32 number *)

(** X3: [N_float], the conversion [(float) n] of line 81, is the number
    [n] itself for every point count up to 16777216 = 2^24; for 16777217
    points it is not. *)
Theorem N_float_exact_up_to_2_24 :
  forall n : Z,
    0 <= n <= 16777216 ->
    float_is_integer (N_float n) n = true
    /\ float_is_integer (N_float 16777217) 16777217 = false.
Proof.
  intros n Hn. split; [|vm_compute; reflexivity].
  unfold N_float.
  destruct n as [|p|p]; [reflexivity | | lia].
  destruct (Z.eq_dec (Zpos p) 16777216) as [E|E].
  - injection E as ->. vm_compute. reflexivity.
  - destruct (float_of_int_small p) as (m & e & Hx & He & Hm); [lia|].
    rewrite Hx. unfold float_is_integer, cond_Zopp.
    destruct (Z.leb_spec 0 e) as [H0|H0].
    + replace e with 0 in * by lia. apply Z.eqb_eq.
      rewrite Hm. change (2 ^ (- 0)) with 1. change (2 ^ 0) with 1. lia.
    + apply Z.eqb_eq. symmetry. exact Hm.
Qed.

Lemma N_float_exact_witness : float_is_integer (N_float 1000) 1000 = true.
Proof.
  assert (H : 0 <= 1000 <= 16777216) by (split; discriminate).
  pose proof (N_float_exact_up_to_2_24 1000 H) as E.
  exact (proj1 E).
Defined.

(** ** The growth bound stays in range *)

Lemma fle_finite_pos (a b : positive) (e1 e2 : Z) :
  e1 < e2 \/ (e1 = e2 /\ (a <= b)%positive) ->
  fle (S754_finite false a e1) (S754_finite false b e2) = true.
Proof.
  intros H. unfold fle, SFleb, SFcompare.
  destruct H as [H|[-> H]].
  - replace (IntDef.Z.compare e1 e2) with Lt by (symmetry; apply Z.compare_lt_iff; exact H).
    reflexivity.
  - replace (IntDef.Z.compare e2 e2) with Eq by (symmetry; apply Z.compare_refl).
    change (Pos.compare_cont Eq a b) with (Pos.compare a b).
    destruct (Pos.compare_spec a b) as [E|E|E]; try reflexivity. lia.
Qed.

Lemma walk_in_range (t : list segment) :
  Forall (fun s => 0 <= seg_len s /\ -17 <= seg_e s <= -6
                   /\ (seg_e s = -17 -> 13107200 <= Zpos (seg_m0 s))) t ->
  forall k : Z, 0 <= k ->
    fle lit_100 (walk t k) = true /\ fle (walk t k) bound_limit = true.
Proof.
  induction 1 as [|s t (Hlen & He & Hm) Ht IH]; intros k Hk.
  - split; reflexivity.
  - cbn [walk]. destruct (Z.leb_spec k (seg_len s)) as [Hle|Hgt].
    + unfold seg_value, lit_100, bound_limit. split; apply fle_finite_pos.
      * destruct (Z.eq_dec (seg_e s) (-17)) as [E|E]; [right | left; lia].
        split; [symmetry; exact E|].
        specialize (Hm E).
        assert (0 < Zpos (seg_m0 s) + k * Zpos (seg_D s)) by nia.
        assert (Zpos (Z.to_pos (Zpos (seg_m0 s) + k * Zpos (seg_D s)))
                = Zpos (seg_m0 s) + k * Zpos (seg_D s)) by (apply Z2Pos.id; lia).
        nia.
      * left. lia.
    + apply IH. lia.
Qed.

Lemma growth_table_in_range :
  Forall (fun s => 0 <= seg_len s /\ -17 <= seg_e s <= -6
                   /\ (seg_e s = -17 -> 13107200 <= Zpos (seg_m0 s))) growth_table.
Proof.
  unfold growth_table.
  repeat (constructor; [cbn; repeat split; try lia; try discriminate|]).
  constructor.
Qed.

(** X4: whatever the number of turns, [max_bounds] is a number between 100
    and 262144: the bound on the positions neither overflows nor becomes a
    NaN. *)
Theorem max_bounds_between_100_and_262144 :
  forall (P : Platform) (entropy : Z) (COL ROW : list Z) (NNZ n : Z) (prm : Params)
         (VAL0 Y0 : list float) (k : nat),
    let b := max_bounds (after_iterations P COL ROW NNZ n prm k
                           (initial_run P entropy n prm VAL0 Y0)) in
    fle lit_100 b = true /\ fle b bound_limit = true.
Proof.
  intros P entropy COL ROW NNZ n prm VAL0 Y0 k b. subst b.
  rewrite max_bounds_growth_bound, growth_bound_walk.
  apply (walk_in_range growth_table growth_table_in_range). lia.
Qed.

(** ** Degenerate exaggeration factors and sums *)

Lemma map_id_on (A : Type) (f : A -> A) (l : list A) :
  Forall (fun x => f x = x) l -> map f l = l.
Proof.
  induction 1 as [|x l Hx Hl IH]; cbn; [reflexivity|]. rewrite Hx, IH. reflexivity.
Qed.

Lemma Forall_firstn (A : Type) (Q : A -> Prop) (k : nat) (l : list A) :
  Forall Q l -> Forall Q (firstn k l).
Proof.
  intros H. rewrite Forall_forall in *. intros x Hx. apply H.
  apply (In_firstn _ k). exact Hx.
Qed.

Lemma fmul_infinity (w : float) : fmul w (S754_infinity false) = overflowed w.
Proof. destruct w as [s|s| |s m e]; try destruct s; reflexivity. Qed.

Section DegenerateRuns.

Variable P : Platform.
Variable entropy : Z.
Variables COL ROW : list Z.
Variables NNZ n : Z.
Variable prm : Params.

(** X5: with the exaggeration factor [1.0f] (exaggeration disabled) the
    rescaling at the horizon multiplies by [1.0f / 1.0f = 1.0f] and gives
    every weight that is a number or an infinity back bit for bit: when no
    weight is a NaN, [Barnes_Hut] returns [VAL] as it was passed, whatever
    the horizon and the budget. *)
Theorem rescaling_by_factor_one_keeps_VAL :
  forall (VAL0 Y0 : list float),
    early_exaggeration prm = lit_1 ->
    Forall well_formed VAL0 ->
    rescaled NNZ prm VAL0 = VAL0
    /\ exists st : Run,
         Barnes_Hut P entropy COL ROW NNZ n prm VAL0 Y0 = Some st /\ VAL st = VAL0.
Proof.
  intros VAL0 Y0 Hee Hwf.
  assert (E : rescaled NNZ prm VAL0 = VAL0).
  { unfold rescaled, scalarMultiply, unaryOp. rewrite Hee.
    change (fdiv lit_1 lit_1) with lit_1.
    rewrite map_id_on; [apply firstn_skipn|].
    apply Forall_firstn. revert Hwf. apply Forall_impl. intros w. apply fmul_one. }
  split; [exact E|].
  eexists. split; [apply Barnes_Hut_total|].
  change (VAL (copy_out P n ?s)) with (VAL s).
  rewrite VAL_after_iterations.
  destruct (horizon_passed prm _); [exact E | reflexivity].
Qed.

(** X6: nothing guards against an exaggeration factor of zero.  The scalar
    is then [1.0f / 0 = +infinity], and a run that reaches the horizon
    returns, in place of each of the first [NNZ] weights, an infinity of
    its sign if it was a number other than zero and a NaN if it was zero. *)
Theorem rescaling_by_factor_zero_overflows_VAL :
  forall (VAL0 Y0 : list float),
    early_exaggeration prm = zero ->
    0 <= exaggeration_iter prm < max_iter prm ->
    exists st : Run,
      Barnes_Hut P entropy COL ROW NNZ n prm VAL0 Y0 = Some st
      /\ VAL st = map overflowed (firstn (Z.to_nat NNZ) VAL0) ++ skipn (Z.to_nat NNZ) VAL0.
Proof.
  intros VAL0 Y0 Hee Hh.
  eexists. split; [apply Barnes_Hut_total|].
  change (VAL (copy_out P n ?s)) with (VAL s).
  rewrite VAL_after_iterations.
  replace (horizon_passed prm (Z.of_nat (Z.to_nat (max_iter prm)))) with true.
  - unfold rescaled, scalarMultiply, unaryOp. rewrite Hee.
    change (fdiv lit_1 zero) with (S754_infinity false).
    f_equal. apply map_ext. intros w. apply fmul_infinity.
  - symmetry. unfold horizon_passed. apply andb_true_intro. split.
    + apply Z.leb_le. lia.
    + apply Z.ltb_lt. lia.
Qed.

(** X7: nothing guards the reduction step either.  When the sum that
    [RepulsionKernel] has accumulated equals the point count, the
    difference is zero and the integrator is handed [+infinity] as
    [Z_norm]. *)
Theorem Z_norm_infinite_when_sum_equals_point_count :
  forall (iter : Z) (st : Run),
    0 <= n <= 16777216 ->
    Z_norm (after_repulsion P NNZ n prm iter st) = float_of_int n ->
    Z_norm (before_integration P COL ROW NNZ n prm iter st) = S754_infinity false.
Proof.
  intros iter st Hn Hraw.
  rewrite Z_norm_before_integration, Hraw.
  assert (Hform : (exists s m e, float_of_int n = S754_finite s m e) \/ float_of_int n = zero).
  { destruct n as [|p|p]; [right; reflexivity | left | lia].
    destruct (Z.eq_dec (Zpos p) 16777216) as [E|E].
    - injection E as ->. eexists _, _, _. vm_compute. reflexivity.
    - destruct (float_of_int_small p) as (m & e & Hx & _); [lia|].
      exists false, m, e. exact Hx. }
  rewrite (fsub_self _ Hform). reflexivity.
Qed.

(** X9: [VAL] is rescaled in place and not restored.  A second call on
    the buffers that a first call has left, with the same parameters and a
    horizon inside the budget, divides the weights once more. *)
Theorem second_run_rescales_again :
  forall (e1 e2 : Z) (VAL0 Y0 : list float) (st1 : Run),
    0 <= exaggeration_iter prm < max_iter prm ->
    Barnes_Hut P e1 COL ROW NNZ n prm VAL0 Y0 = Some st1 ->
    exists st2 : Run,
      Barnes_Hut P e2 COL ROW NNZ n prm (VAL st1) (Y st1) = Some st2
      /\ VAL st1 = rescaled NNZ prm VAL0
      /\ VAL st2 = rescaled NNZ prm (rescaled NNZ prm VAL0).
Proof.
  intros e1 e2 VAL0 Y0 st1 Hh H1.
  assert (Hp : horizon_passed prm (Z.of_nat (Z.to_nat (max_iter prm))) = true).
  { unfold horizon_passed. apply andb_true_intro. split.
    - apply Z.leb_le. lia.
    - apply Z.ltb_lt. lia. }
  rewrite Barnes_Hut_total in H1. injection H1 as <-.
  assert (E1 : VAL (copy_out P n (after_iterations P COL ROW NNZ n prm
                 (Z.to_nat (max_iter prm)) (initial_run P e1 n prm VAL0 Y0)))
               = rescaled NNZ prm VAL0).
  { change (VAL (copy_out P n ?s)) with (VAL s).
    rewrite VAL_after_iterations, Hp. reflexivity. }
  eexists. split; [apply Barnes_Hut_total|]. split; [exact E1|].
  change (VAL (copy_out P n ?s)) with (VAL s).
  rewrite VAL_after_iterations, Hp.
  change (VAL (initial_run P e2 n prm ?v ?y)) with v.
  rewrite E1. reflexivity.
Qed.

End DegenerateRuns.

Lemma rescaling_by_factor_one_witness :
  option_map VAL (Scenario.run lit_1 false 3 1 Demo.VAL Demo.Y_in) = Some Demo.VAL.
Proof.
  assert (Hwf : Forall well_formed Demo.VAL) by (repeat constructor; discriminate).
  destruct (rescaling_by_factor_one_keeps_VAL Demo.platform 0 Demo.COL Demo.ROW 2 2
              (Scenario.params lit_1 false 3 1 42) Demo.VAL Demo.Y_in eq_refl Hwf)
    as (_ & st & Hrun & Hval).
  unfold Scenario.run. rewrite Hrun. cbn [option_map]. rewrite Hval. reflexivity.
Defined.

Lemma rescaling_by_factor_zero_witness :
  option_map VAL (Scenario.run zero false 3 1 Demo.VAL Demo.Y_in)
  = Some [S754_infinity false; S754_infinity false].
Proof.
  assert (Hh : 0 <= exaggeration_iter (Scenario.params zero false 3 1 42)
               < max_iter (Scenario.params zero false 3 1 42))
    by (split; [discriminate | reflexivity]).
  destruct (rescaling_by_factor_zero_overflows_VAL Demo.platform 0 Demo.COL Demo.ROW 2 2
              (Scenario.params zero false 3 1 42) Demo.VAL Demo.Y_in eq_refl Hh)
    as (st & Hrun & Hval).
  unfold Scenario.run. rewrite Hrun. cbn [option_map]. rewrite Hval. reflexivity.
Defined.

(** Two points whose repulsion sum holds their two self-terms only. *)
Lemma Z_norm_infinite_witness :
  Z_norm (before_integration (Scenario.platform_with_sum float_of_int)
            Demo.COL Demo.ROW 2 2 (Demo.params 3 1 42) 0
            (initial_run (Scenario.platform_with_sum float_of_int) 0 2
               (Demo.params 3 1 42) Demo.VAL Demo.Y_in))
  = S754_infinity false.
Proof.
  assert (Hn : 0 <= 2 <= 16777216) by (split; discriminate).
  apply (Z_norm_infinite_when_sum_equals_point_count
           (Scenario.platform_with_sum float_of_int) Demo.COL Demo.ROW 2 2
           (Demo.params 3 1 42) 0 _ Hn).
  vm_compute. reflexivity.
Defined.

Lemma second_run_rescales_witness :
  exists st1 st2 : Run,
    Barnes_Hut Demo.platform 0 Demo.COL Demo.ROW 2 2 (Demo.params 3 1 42)
      Demo.VAL Demo.Y_in = Some st1
    /\ Barnes_Hut Demo.platform 0 Demo.COL Demo.ROW 2 2 (Demo.params 3 1 42)
         (VAL st1) (Y st1) = Some st2
    /\ VAL st2 = rescaled 2 (Demo.params 3 1 42) (rescaled 2 (Demo.params 3 1 42) Demo.VAL).
Proof.
  assert (Hh : 0 <= exaggeration_iter (Demo.params 3 1 42) < max_iter (Demo.params 3 1 42))
    by (split; [discriminate | reflexivity]).
  pose proof (Barnes_Hut_total Demo.platform 0 Demo.COL Demo.ROW 2 2
                (Demo.params 3 1 42) Demo.VAL Demo.Y_in) as Hrun.
  destruct (second_run_rescales_again Demo.platform Demo.COL Demo.ROW 2 2
              (Demo.params 3 1 42) 0 0 Demo.VAL Demo.Y_in _ Hh Hrun)
    as (st2 & H2 & _ & Hv2).
  eexists. exists st2. split; [exact Hrun|]. split; [exact H2 | exact Hv2].
Defined.

(** ** The initial positions, copied in and out *)








(** ** The checks and the parameters of the PCA entry points *)

Section PCATransformFacts.

Import PCA PCATransforms.

Variable math_t : Type.
Variable mul : math_t -> math_t -> math_t.
Variable minus_one zero : math_t.
Variable sqrt_of : Z -> math_t.
Variable inv_sqrt_of : Z -> math_t.
Variable matrixVectorBinaryMultSkipZero :
  list math_t -> list math_t -> Z -> Z -> list math_t.
Variable matrixVectorBinaryDivSkipZero :
  list math_t -> list math_t -> Z -> Z -> list math_t.
Variable cublasgemv : Z -> Z -> math_t -> list math_t -> list math_t -> math_t -> list math_t.
Variable tsvdTransform : list math_t -> list math_t -> paramsPCA -> list math_t.
Variable tsvdInverseTransform : list math_t -> list math_t -> paramsPCA -> list math_t.
Variable meanAdd : list math_t -> list math_t -> Z -> Z -> list math_t.
Variable signFlip :
  list math_t -> Z -> Z -> list math_t -> Z -> list math_t * list math_t.
Variable fit_numerics : paramsPCA -> list math_t -> FitResult math_t.

Local Abbreviation pcaFit_ := (pcaFit (list math_t) (FitResult math_t) fit_numerics).
Local Abbreviation transform_numerics_ :=
  (transform_numerics math_t mul minus_one zero sqrt_of inv_sqrt_of
     matrixVectorBinaryMultSkipZero matrixVectorBinaryDivSkipZero cublasgemv
     tsvdTransform meanAdd).
Local Abbreviation pcaTransform_ :=
  (pcaTransform math_t mul minus_one zero sqrt_of inv_sqrt_of
     matrixVectorBinaryMultSkipZero matrixVectorBinaryDivSkipZero cublasgemv
     tsvdTransform meanAdd).
Local Abbreviation pcaInverseTransform_ :=
  (pcaInverseTransform math_t mul sqrt_of inv_sqrt_of
     matrixVectorBinaryMultSkipZero matrixVectorBinaryDivSkipZero
     tsvdInverseTransform meanAdd).
Local Abbreviation pcaFitTransform_ :=
  (pcaFitTransform math_t mul minus_one zero sqrt_of inv_sqrt_of
     matrixVectorBinaryMultSkipZero matrixVectorBinaryDivSkipZero cublasgemv
     tsvdTransform meanAdd signFlip fit_numerics).

Lemma check_dimensions_as_pcaFit (input : list math_t) (prms : paramsPCA) :
  abort_message (check_dimensions prms) = abort_message (pcaFit_ input prms).
Proof.
  unfold check_dimensions, pcaFit, ASSERT, bind.
  destruct (1 <? n_cols prms); [|reflexivity].
  destruct (1 <? n_rows prms); [|reflexivity].
  destruct (0 <? n_components prms); reflexivity.
Qed.

(** X10: the four entry points reject the same parameters with the same
    words: whatever the buffers and the whitening flag, [pcaTransform],
    [pcaInverseTransform] and [pcaFitTransform] are abandoned exactly when
    [pcaFit] is, and with the message [pcaFit] gives; in particular
    [pcaFitTransform] never fails in its transform after a fit that
    succeeded. *)
Theorem transforms_abort_exactly_as_pcaFit :
  forall (whiten : bool) (input data components singular_vals mu : list math_t)
         (prms : paramsPCA),
    abort_message (pcaTransform_ whiten data components singular_vals mu prms)
    = abort_message (pcaFit_ input prms)
    /\ abort_message (pcaInverseTransform_ whiten data components singular_vals mu prms)
       = abort_message (pcaFit_ input prms)
    /\ abort_message (pcaFitTransform_ whiten input prms)
       = abort_message (pcaFit_ input prms).
Proof.
  intros whiten input data components singular_vals mu prms.
  rewrite <- (check_dimensions_as_pcaFit input prms).
  split; [|split].
  - unfold pcaTransform. destruct (check_dimensions prms); reflexivity.
  - unfold pcaInverseTransform. destruct (check_dimensions prms); reflexivity.
  - unfold pcaFitTransform, pcaTransform, check_dimensions, pcaFit, ASSERT, bind.
    destruct (1 <? n_cols prms); [|reflexivity].
    destruct (1 <? n_rows prms); [|reflexivity].
    destruct (0 <? n_components prms); reflexivity.
Qed.

(** X11: [pcaFitTransform] hands its parameters to [pcaFit] by value, so
    the clamp of [n_components] made there is lost: the fit runs with the
    smaller of [n_components] and [n_cols], while the projection and
    [signFlip] that follow run with [n_components] as the caller gave
    it, on the buffers the fit has written. *)
Theorem pcaFitTransform_clamps_for_the_fit_only :
  forall (whiten : bool) (input : list math_t) (prms : paramsPCA),
    1 < n_cols prms -> 1 < n_rows prms -> 0 < n_components prms ->
    let fit :=
      fit_numerics (set_n_components (Z.min (n_components prms) (n_cols prms)) prms)
        input in
    let r :=
      transform_numerics_ whiten (fit_input fit) (fit_components fit)
        (fit_singular_vals fit) (fit_mu fit) prms in
    let flipped :=
      signFlip (snd r) (n_rows prms) (n_components prms) (fst r) (n_cols prms) in
    pcaFitTransform_ whiten input prms = Done (fit, fst flipped, snd flipped).
Proof.
  intros whiten input prms Hc Hr Hk fit r flipped.
  unfold pcaFitTransform, pcaTransform, check_dimensions, pcaFit, ASSERT, bind.
  destruct (Z.ltb_spec 1 (n_cols prms)) as [_|?]; [|lia].
  destruct (Z.ltb_spec 1 (n_rows prms)) as [_|?]; [|lia].
  destruct (Z.ltb_spec 0 (n_components prms)) as [_|?]; [|lia].
  assert (E : (if n_cols prms <? n_components prms
               then set_n_components (n_cols prms) prms else prms)
              = set_n_components (Z.min (n_components prms) (n_cols prms)) prms).
  { destruct (Z.ltb_spec (n_cols prms) (n_components prms)).
    - rewrite Z.min_r by lia. reflexivity.
    - rewrite Z.min_l by lia. destruct prms; reflexivity. }
  rewrite E. reflexivity.
Qed.

End PCATransformFacts.

(** Five components are asked of data with two columns: the fit writes
    [2 * 2] cells of components, the projection [3 * 5] cells. *)
Lemma pcaFitTransform_clamps_witness :
  PCADemo.pcaFitTransform false [1; 2; 3; 4; 5; 6] (PCA.mkParamsPCA 3 2 5)
  = PCA.Done
      (PCADemo.fit_numerics (PCA.mkParamsPCA 3 2 2) [1; 2; 3; 4; 5; 6],
       repeat 0 15%nat, repeat 1 4%nat).
Proof.
  assert (Hc : 1 < PCA.n_cols (PCA.mkParamsPCA 3 2 5)) by reflexivity.
  assert (Hr : 1 < PCA.n_rows (PCA.mkParamsPCA 3 2 5)) by reflexivity.
  assert (Hk : 0 < PCA.n_components (PCA.mkParamsPCA 3 2 5)) by reflexivity.
  pose proof (pcaFitTransform_clamps_for_the_fit_only Z Z.mul (-1) 0 Z.sqrt (fun _ => 1)
                (fun data _ _ _ => data) (fun data _ _ _ => data)
                (fun _ _ _ _ _ _ => []) PCADemo.tsvdTransform
                (fun data _ _ _ => data) (fun t _ _ c _ => (t, c)) PCADemo.fit_numerics
                false [1; 2; 3; 4; 5; 6] (PCA.mkParamsPCA 3 2 5) Hc Hr Hk) as E.
  exact E.
Defined.

(** ** Eigenpairs and singular values of [eigh] *)

Lemma unaryOp_length (A : Type) (f : A -> A) (k : nat) (l : list A) :
  List.length (unaryOp f k l) = List.length l.
Proof.
  unfold unaryOp. rewrite length_app, length_map, length_firstn, length_skipn. lia.
Qed.

Lemma nth_unaryOp (A : Type) (f : A -> A) (k i : nat) (l : list A) (d : A) :
  (i < List.length l)%nat ->
  nth i (unaryOp f k l) d = if (i <? k)%nat then f (nth i l d) else nth i l d.
Proof.
  intros Hi. unfold unaryOp. destruct (Nat.ltb_spec i k) as [Hk|Hk].
  - rewrite app_nth1 by (rewrite length_map, length_firstn; lia).
    rewrite (nth_indep _ d (f d)) by (rewrite length_map, length_firstn; lia).
    rewrite map_nth, nth_firstn.
    destruct (Nat.ltb_spec i k); [reflexivity | lia].
  - rewrite app_nth2 by (rewrite length_map, length_firstn; lia).
    rewrite length_map, length_firstn, nth_skipn. f_equal. lia.
Qed.

Section EighPairs.

Variable math_t : Type.
Variable zero : math_t.
Variable gt : math_t -> math_t -> bool.
Variable mySqrt : math_t -> math_t.
Variable syevd : nat -> list (list math_t) -> list math_t * list (list math_t).

(** X12: [eigh] keeps each eigenvalue with its eigenvector.  When the
    solver fills [p] eigenvalues and [p] columns, entry [i] of [W] and
    column [i] of [V] both come from the solver's index [p - 1 - i]; the
    column is unchanged, and the entry is unchanged too unless singular
    values are asked for and [i < k], when it is its root or zero. *)
Theorem eigh_keeps_eigenpairs_together :
  forall (V : list (list math_t)) (p k i : nat) (singular_values : bool)
         (dw : math_t) (dv : list math_t),
    List.length (fst (syevd p V)) = p ->
    List.length (snd (syevd p V)) = p ->
    (i < p)%nat ->
    let r := Eigh.eigh math_t zero gt mySqrt syevd V p k singular_values in
    List.length (fst r) = p
    /\ List.length (snd r) = p
    /\ nth i (snd r) dv = nth (p - 1 - i) (snd (syevd p V)) dv
    /\ nth i (fst r) dw
       = if singular_values && (i <? k)%nat
         then Eigh.root_or_zero math_t zero gt mySqrt (nth (p - 1 - i) (fst (syevd p V)) dw)
         else nth (p - 1 - i) (fst (syevd p V)) dw.
Proof.
  intros V p k i sv dw dv HW HV Hi r. subst r.
  unfold Eigh.eigh, Eigh.colReverse. cbn [fst snd].
  assert (EW : nth i (rev (fst (syevd p V))) dw = nth (p - 1 - i) (fst (syevd p V)) dw).
  { rewrite rev_nth by lia. rewrite HW. f_equal. lia. }
  assert (EV : nth i (rev (snd (syevd p V))) dv = nth (p - 1 - i) (snd (syevd p V)) dv).
  { rewrite rev_nth by lia. rewrite HV. f_equal. lia. }
  split; [|split; [|split]].
  - destruct sv; [rewrite unaryOp_length|]; rewrite length_rev; exact HW.
  - rewrite length_rev. exact HV.
  - exact EV.
  - destruct sv; cbn [andb]; [|exact EW].
    assert (Hi' : (i < List.length (fst (syevd p V)))%nat) by (rewrite HW; exact Hi).
    rewrite nth_unaryOp by (rewrite length_rev; exact Hi').
    destruct (i <? k)%nat; [f_equal|]; exact EW.
Qed.

End EighPairs.

Lemma eigh_keeps_eigenpairs_witness :
  nth 0 (snd (Eigh.eigh_float Eigh.diag_4_3 2 1 true)) [] = [lit_1; zero]
  /\ nth 0 (fst (Eigh.eigh_float Eigh.diag_4_3 2 1 true)) zero = Eigh.lit_2.
Proof.
  assert (Hi : (0 < 2)%nat) by (apply Nat.lt_0_succ).
  pose proof (eigh_keeps_eigenpairs_together float zero (fun a b => flt b a) fsqrt
                Eigh.syevd_diagonal Eigh.diag_4_3 2 1 0 true zero [] eq_refl eq_refl Hi)
    as (_ & _ & HV & HW).
  split.
  - etransitivity; [exact HV | reflexivity].
  - etransitivity; [exact HW | vm_compute; reflexivity].
Defined.

(** X13: in binary32, whatever the solver has left in [W], also negative
    numbers and NaN, none of the first [k] entries that [eigh] returns as
    singular values is negative or NaN: a positive entry is replaced by
    its correctly rounded root, which is at least zero, and every other
    entry by zero. *)
Theorem singular_values_never_negative_nor_nan :
  forall (syevd : nat -> list (list float) -> list float * list (list float))
         (V : list (list float)) (p k : nat),
    Forall (fun w => fle zero w = true)
      (firstn k (fst (Eigh.eigh float zero (fun a b => flt b a) fsqrt syevd V p k true))).
Proof.
  intros syevd V p k. unfold Eigh.eigh. cbn [fst].
  rewrite firstn_unaryOp. apply Forall_map. rewrite Forall_forall. intros x _.
  unfold Eigh.root_or_zero.
  destruct (flt zero x) eqn:Hpos; [apply fsqrt_nonneg; exact Hpos | reflexivity].
Qed.

(** ** The sizes as values of type [int] *)

(** X14: the sizes that [Barnes_Hut] computes in [int] all stay in the
    range of a 32-bit [int] exactly when there are at most
    [2^28 - 16 = 268435440] points and at most [2^19 - 1 = 524287]
    multiprocessors; beyond either bound the length [(NNODES + 1) * 4]
    of [childl] no longer fits. *)
Theorem sizes_fit_in_int_up_to_268435440_points :
  forall (P : Platform) (n : Z),
    0 <= n -> 0 <= blocks P ->
    (forallb int_range (int_values P n) = true
     <-> n <= 268435440 /\ blocks P <= 524287).
Proof.
  intros P n Hn Hb.
  destruct (compute_nnodes_window (blocks P) n) as [Hmod Hwin].
  fold (NNODES P n) in Hmod, Hwin.
  assert (Hmul : exists q, NNODES P n + 1 = 32 * q).
  { exists ((NNODES P n + 1) / 32). apply Z_div_exact_full_2; [lia | exact Hmod]. }
  destruct Hmul as [q Hq].
  unfold int_values. cbn [forallb]. rewrite !andb_true_iff, !int_range_spec.
  destruct (Z.ltb_spec (n * 2) (1024 * blocks P)); split; intros Hfit; lia.
Qed.

Lemma sizes_fit_in_int_witness :
  forallb int_range (int_values Demo.platform 2) = true.
Proof.
  assert (Hn : 0 <= 2) by discriminate.
  assert (Hb : 0 <= blocks Demo.platform) by discriminate.
  pose proof (sizes_fit_in_int_up_to_268435440_points Demo.platform 2 Hn Hb) as [_ H].
  apply H. split; discriminate.
Defined.
